(** * FlexPool: the Pentair RS-485 frame codec and the ESP32 RS-485 interface

    A shallow embedding of
      - [Controller/PentairProtocol.h]  (frame layout, checksum, marker search,
        packet builder),
      - [FlexPool_ESP32/config.h], [src/RS485.cpp], [src/Statistics.cpp],
        [src/Application.cpp] (half-duplex transport and the application's
        packet handling),
    a model of the command scheduler that the link-layer specification
    describes, and the properties of that specification that concern them.

    Conventions.
      - A [uint8_t] is a [Byte.byte]; [u8] gives its value in [Z] and [to_u8]
        is the conversion to [uint8_t] (reduction modulo 256).
      - Wider C integers are [Z] with the wrap-around written out
        ([to_u16], [to_size_t], [to_int], [to_ulong]).
      - A pointer to bytes is the [list byte] it points to; an access outside
        the list is undefined behaviour in C and is [None] here.
      - Code that talks to the hardware (UART, GPIO, clock, console) is an
        interaction tree over the events [hwE]. *)

From Stdlib Require Import ZArith List Lia Bool NArith Eqdep.
From Stdlib Require Import String.
From Stdlib.Strings Require Import Byte.
From ITree Require Import ITree ITreeFacts.
Import ListNotations.
Local Open Scope Z_scope.

(* ===================================================================== *)
(** ** Machine integers *)
(* ===================================================================== *)

Module CInt.

(** Value of a [uint8_t]. *)
Definition u8 (b : byte) : Z := Z.of_N (Byte.to_N b).

(** Conversion to [uint8_t]: the value modulo 2^8. *)
Definition to_u8 (z : Z) : byte :=
  match Byte.of_N (Z.to_N (z mod 256)) with
  | Some b => b
  | None => x00
  end.

(** Conversion to [uint16_t]. *)
Definition to_u16 (z : Z) : Z := z mod 2 ^ 16.

(** Conversion to [size_t] and to [unsigned long] (32 bits on the ESP32). *)
Definition to_size_t (z : Z) : Z := z mod 2 ^ 32.
Definition to_ulong (z : Z) : Z := z mod 2 ^ 32.

(** Conversion to [int] (32 bits, two's complement). *)
Definition to_int (z : Z) : Z := (z + 2 ^ 31) mod 2 ^ 32 - 2 ^ 31.

End CInt.
Export CInt.

(* ===================================================================== *)
(** ** Byte buffers *)
(* ===================================================================== *)

Module Mem.

(** [p[i]] as an rvalue. *)
Definition load (p : list byte) (i : Z) : option byte :=
  if i <? 0 then None else nth_error p (Z.to_nat i).

(** [p[i] = b]. *)
Definition store (p : list byte) (i : Z) (b : byte) : option (list byte) :=
  if (0 <=? i) && (i <? Z.of_nat (List.length p))
  then Some (firstn (Z.to_nat i) p ++ b :: skipn (S (Z.to_nat i)) p)
  else None.

(** The [n] bytes of [p] from index [i] on. *)
Definition slice (p : list byte) (i n : nat) : list byte :=
  firstn n (skipn i p).

(** Arithmetic sum of the byte values of a list. *)
Definition byte_sum (l : list byte) : Z :=
  fold_right (fun b s => u8 b + s) 0 l.

End Mem.
Export Mem.

Declare Scope opt_scope.
Delimit Scope opt_scope with opt.

Notation "'let*' x ':=' e 'in' k" :=
  (match e with Some x => k | None => None end)
  (at level 10, x pattern, e at level 100, k at level 200) : opt_scope.

Local Open Scope opt_scope.

(** [for (i = lo; i < lo + n; i++) s = body(i, s);] *)
Fixpoint for_loop {S : Type} (n : nat) (i : Z) (body : Z -> S -> option S) (s : S)
  : option S :=
  match n with
  | O => Some s
  | Datatypes.S n' =>
      let* s' := body i s in
      for_loop n' (i + 1) body s'
  end.

(** [for (i = lo; i < hi; i++) s = body(i, s);]: the body runs [hi - lo] times,
    not at all when [hi <= lo]. *)
Definition for_range {S : Type} (lo hi : Z) (body : Z -> S -> option S) (s : S)
  : option S :=
  for_loop (Z.to_nat (hi - lo)) lo body s.

(* ===================================================================== *)
(** ** Controller/PentairProtocol.h *)
(* ===================================================================== *)

Module Pentair.

Definition PENTAIR_PREAMBLE_LEN : Z := 4.
Definition PENTAIR_PREAMBLE : list byte := [xff; x00; xff; xa5].

Definition PKT_IDX_LEAD : Z := 3.
Definition PKT_IDX_VER : Z := 4.
Definition PKT_IDX_DST : Z := 5.
Definition PKT_IDX_SRC : Z := 6.
Definition PKT_IDX_CMD : Z := 7.
Definition PKT_IDX_LEN : Z := 8.
Definition PKT_IDX_DATA : Z := 9.

Definition PENTAIR_MIN_PKT_LEN : Z := 11.
Definition PENTAIR_VERSION : byte := x00.

Definition ADDR_BROADCAST : byte := x0f.
Definition ADDR_MAIN_CONTROLLER_1 : byte := x10.
Definition ADDR_MAIN_CONTROLLER_2 : byte := x11.
Definition ADDR_REMOTE_CONTROLLER : byte := x20.
Definition ADDR_PUMP_1 : byte := x60.
Definition ADDR_PUMP_2 : byte := x61.
Definition ADDR_PUMP_3 : byte := x62.
Definition ADDR_PUMP_4 : byte := x63.

Definition CMD_WRITE_REG : byte := x01.
Definition CMD_CTRL : byte := x04.
Definition CMD_MODE : byte := x05.
Definition CMD_RUN : byte := x06.
Definition CMD_STATUS : byte := x07.

Definition MODE_EXT_PROG_1 : byte := x09.
Definition MODE_EXT_PROG_2 : byte := x0a.
Definition MODE_EXT_PROG_3 : byte := x0b.
Definition MODE_EXT_PROG_4 : byte := x0c.

Definition EXT_PROG_REPEAT_INTERVAL : Z := 30000.
Definition CMD_RESPONSE_TIMEOUT : Z := 2000.
Definition STATUS_QUERY_INTERVAL : Z := 15000.

(** Body of the two checksum loops: [sum += p[i]] on a [uint16_t]. *)
Definition add_byte (p : list byte) (i : Z) (sum : Z) : option Z :=
  let* b := load p i in
  Some (to_u16 (sum + u8 b)).

(** [pentairChecksum]: sum of [packet[3 .. length-3]]; the bound
    [length - 2] is computed in [size_t]. *)
Definition pentairChecksum (packet : list byte) (length : Z) : option Z :=
  for_range PKT_IDX_LEAD (to_size_t (length - 2)) (add_byte packet) 0.

(** [pentairVerifyChecksum]. *)
Definition pentairVerifyChecksum (packet : list byte) (length : Z) : option bool :=
  if length <? PENTAIR_MIN_PKT_LEN then Some false
  else
    let* calculated := pentairChecksum packet length in
    let* hi := load packet (to_size_t (length - 2)) in
    let* lo := load packet (to_size_t (length - 1)) in
    let received := to_u16 (Z.lor (Z.shiftl (to_u16 (u8 hi)) 8) (u8 lo)) in
    Some (calculated =? received).

(** [a && b] of C, where [b] is evaluated only when [a] holds. *)
Definition and_then (a : option bool) (b : option bool) : option bool :=
  let* x := a in
  if x then b else Some false.

Definition byte_is (p : list byte) (i : Z) (v : byte) : option bool :=
  let* b := load p i in
  Some (Byte.eqb b v).

(** The condition of the [if] in [pentairFindMessage]. *)
Definition marker_at (buffer : list byte) (i : Z) : option bool :=
  and_then (byte_is buffer i xff)
    (and_then (byte_is buffer (i + 1) x00)
       (and_then (byte_is buffer (i + 2) xff)
          (byte_is buffer (i + 3) xa5))).

(** The loop of [pentairFindMessage], [n] iterations left, with its early
    [return (int)i]. *)
Fixpoint find_loop (n : nat) (buffer : list byte) (i : Z) : option Z :=
  match n with
  | O => Some (-1)
  | S n' =>
      let* m := marker_at buffer i in
      if m then Some (to_int i) else find_loop n' buffer (i + 1)
  end.

(** [pentairFindMessage]: [i] runs over [0 .. length - 4] inclusive. *)
Definition pentairFindMessage (buffer : list byte) (length : Z) : option Z :=
  if length <? PENTAIR_MIN_PKT_LEN then Some (-1)
  else find_loop (Z.to_nat (to_size_t (length - 4) + 1)) buffer 0.

(** [pentairPacketLength]: the sum is computed in [int] and converted to
    [size_t]. *)
Definition pentairPacketLength (packetStart : list byte) : option Z :=
  let* len := load packetStart PKT_IDX_LEN in
  Some (to_size_t (4 + 1 + 1 + 1 + 1 + 1 + u8 len + 2)).

(** [buffer[idx++] = b]. *)
Definition put (b : byte) (st : list byte * Z) : option (list byte * Z) :=
  let '(buffer, idx) := st in
  let* buffer' := store buffer idx b in
  Some (buffer', to_size_t (idx + 1)).

(** Body of the data loop: [buffer[idx++] = data[i]]. *)
Definition copy_byte (data : list byte) (i : Z) (st : list byte * Z)
  : option (list byte * Z) :=
  let* d := load data i in
  put d st.

(** [pentairBuildPacket]: returns the buffer as written and the total
    length [idx]. The length parameter is a [uint8_t], and so is the
    counter of the data loop, which stays below [dataLen]. [buffer] and
    [data] are distinct arrays. *)
Definition pentairBuildPacket (buffer : list byte) (dst src cmd : byte)
    (data : list byte) (dataLen : byte) : option (list byte * Z) :=
  let st := (buffer, 0) in
  let* st := put xff st in
  let* st := put x00 st in
  let* st := put xff st in
  let* st := put xa5 st in
  let* st := put PENTAIR_VERSION st in
  let* st := put dst st in
  let* st := put src st in
  let* st := put cmd st in
  let* st := put dataLen st in
  let* st := for_range 0 (u8 dataLen) (copy_byte data) st in
  let* checksum := for_range PKT_IDX_LEAD (snd st) (add_byte (fst st)) 0 in
  let* st := put (to_u8 (Z.land (Z.shiftr checksum 8) 255)) st in
  let* st := put (to_u8 (Z.land checksum 255)) st in
  Some st.

End Pentair.
Export Pentair.

(* ===================================================================== *)
(** ** The frame as the wire format describes it *)
(* ===================================================================== *)

Module Wire.

(** The checksummed region: lead byte, version, addresses, command, length
    and payload. *)
Definition frame_body (dst src cmd len : byte) (payload : list byte) : list byte :=
  [xa5; PENTAIR_VERSION; dst; src; cmd; len] ++ payload.

Definition checksum_of (body : list byte) : Z := to_u16 (byte_sum body).

Definition checksum_bytes (c : Z) : list byte :=
  [to_u8 (Z.land (Z.shiftr c 8) 255); to_u8 (Z.land c 255)].

(** [FF 00 FF] [A5 VER DST SRC CMD LEN DATA...] [CHK_HI CHK_LO] *)
Definition frame_bytes (dst src cmd len : byte) (payload : list byte) : list byte :=
  [xff; x00; xff] ++ frame_body dst src cmd len payload
    ++ checksum_bytes (checksum_of (frame_body dst src cmd len payload)).

(** Sequential [buffer[idx++] = b] for the bytes of a list. *)
Fixpoint puts (l : list byte) (st : list byte * Z) : option (list byte * Z) :=
  match l with
  | [] => Some st
  | b :: l' =>
      let* st' := put b st in
      puts l' st'
  end.

(** The value a big-endian pair of bytes denotes. *)
Definition be16 (hi lo : byte) : Z := 256 * u8 hi + u8 lo.

(** The number of payload bytes a length byte announces. *)
Definition len_of (dataLen : byte) : nat := Z.to_nat (u8 dataLen).

End Wire.
Export Wire.


(* ===================================================================== *)
(** ** The board: pins, clock, UARTs and console as events *)
(* ===================================================================== *)

Import ITreeNotations.
Local Open Scope itree_scope.

Module Hw.

Inductive Level : Set := LOW | HIGH.
Inductive PinConfig : Set := INPUT | OUTPUT.
Inductive SerialConfig : Set := SERIAL_8N1.

(** The [HardwareSerial] objects the firmware names: [Serial] is the USB
    console, [Serial2] the UART wired to the RS-485 transceiver. *)
Inductive Port : Set := Serial | Serial2.

Inductive PrintArg : Set :=
| ArgStr (s : String.string)
| ArgInt (z : Z).

(** One constructor per call into the Arduino core; the answer type is the
    C++ return type. [OutOfBounds] stands for an access outside an array:
    it has no answer, the program does not continue. *)
Variant hwE : Type -> Type :=
| PinMode (pin : Z) (mode : PinConfig) : hwE unit
| DigitalWrite (pin : Z) (level : Level) : hwE unit
| DelayMicroseconds (us : Z) : hwE unit
| Delay (ms : Z) : hwE unit
| Millis : hwE Z
| UartBegin (port : Port) (baud : Z) (config : SerialConfig) (rx tx : Z) : hwE unit
| UartAvailable (port : Port) : hwE Z
| UartRead (port : Port) : hwE Z
| UartPeek (port : Port) : hwE Z
| UartWrite (port : Port) (data : list byte) (length : Z) : hwE Z
| UartWriteByte (port : Port) (b : byte) : hwE Z
| UartFlush (port : Port) : hwE unit
| Println (port : Port) (text : String.string) : hwE unit
| Printf (port : Port) (format : String.string) (args : list PrintArg) : hwE unit
| OutOfBounds : hwE void.

Definition undefined {R : Type} : itree hwE R :=
  v <- ITree.trigger OutOfBounds ;; match v : void with end.

(** An event together with the answer the board gave. *)
Inductive answered : Type :=
| Ans {X : Type} (e : hwE X) (x : X).

(** [runs t tr r]: the program [t] performs the calls of [tr], in this
    order and with these answers, and then returns [r]. *)
Inductive runs {R : Type} : itree hwE R -> list answered -> R -> Prop :=
| runs_ret t r :
    observe t = RetF r -> runs t [] r
| runs_tau t t' tr r :
    observe t = TauF t' -> runs t' tr r -> runs t tr r
| runs_vis t X (e : hwE X) k x tr r :
    observe t = VisF e k -> runs (k x) tr r -> runs t (Ans e x :: tr) r.

End Hw.
Export Hw.

(* ===================================================================== *)
(** ** FlexPool_ESP32/config.h *)
(* ===================================================================== *)

Module Config.

Definition RS485_SERIAL : Port := Serial2.
Definition RS485_DE_RE_PIN : Z := 4.
Definition RS485_TX_PIN : Z := 17.
Definition RS485_RX_PIN : Z := 16.
Definition RS485_BAUD_RATE : Z := 9600.
Definition RS485_BUFFER_SIZE : Z := 256.
Definition RS485_TIMEOUT_MS : Z := 30000.
Definition STATS_INTERVAL_MS : Z := 60000.
Definition RS485_PRE_TX_DELAY_US : Z := 10.
Definition RS485_POST_TX_DELAY_US : Z := 10.
Definition RS485_RX_TIMEOUT_MS : Z := 100.

(** Feature macros: [Some v] for [#define M v], [None] for a macro that is
    not defined. The sources test them with [#ifdef]. *)
Definition DEBUG_MODE : option Z := Some 1.
Definition ECHO_MODE : option Z := Some 0.
Definition ENABLE_WIFI : option Z := Some 0.

(** [#ifdef M] *)
Definition ifdef (m : option Z) : bool :=
  match m with Some _ => true | None => false end.

End Config.
Export Config.

(* ===================================================================== *)
(** ** FlexPool_ESP32/src/RS485.cpp *)
(* ===================================================================== *)

Module RS485.

Record t : Set := mk {
  serial_ : Port;
  de_re_pin_ : Z;
  tx_pin_ : Z;
  rx_pin_ : Z;
  initialized_ : bool
}.

(** [RS485::RS485] *)
Definition new (serialPort : Port) (de_re tx rx : Z) : t :=
  {| serial_ := serialPort; de_re_pin_ := de_re; tx_pin_ := tx; rx_pin_ := rx;
     initialized_ := false |}.

Definition setTransmitMode (this : t) : itree hwE unit :=
  ITree.trigger (DigitalWrite (de_re_pin_ this) HIGH) ;;
  ITree.trigger (DelayMicroseconds RS485_PRE_TX_DELAY_US).

Definition setReceiveMode (this : t) : itree hwE unit :=
  ITree.trigger (DelayMicroseconds RS485_POST_TX_DELAY_US) ;;
  ITree.trigger (DigitalWrite (de_re_pin_ this) LOW).

(** [RS485::begin] *)
Definition begin (this : t) (baudRate : Z) : itree hwE (t * bool) :=
  ITree.trigger (PinMode (de_re_pin_ this) OUTPUT) ;;
  setReceiveMode this ;;
  ITree.trigger (UartBegin (serial_ this) baudRate SERIAL_8N1 (rx_pin_ this) (tx_pin_ this)) ;;
  ITree.trigger (Delay 100) ;;
  Ret ({| serial_ := serial_ this; de_re_pin_ := de_re_pin_ this;
          tx_pin_ := tx_pin_ this; rx_pin_ := rx_pin_ this;
          initialized_ := true |}, true).

(** [RS485::available] *)
Definition available (this : t) : itree hwE Z :=
  if negb (initialized_ this) then Ret 0
  else ITree.trigger (UartAvailable (serial_ this)).

(** State of the loop of [readBytes]: buffer, [bytesRead], [startTime]. *)
Definition read_state : Type := list byte * Z * Z.

(** One evaluation of the loop condition and, when it holds, of the body. *)
Definition read_step (this : t) (length : Z) (st : read_state)
  : itree hwE (read_state + (option (list byte) * Z)) :=
  let '(buffer, bytesRead, startTime) := st in
  if bytesRead <? length then
    now <- ITree.trigger Millis ;;
    if to_ulong (now - startTime) <? RS485_RX_TIMEOUT_MS then
      a <- ITree.trigger (UartAvailable (serial_ this)) ;;
      st' <- (if a =? 0 then Ret (buffer, bytesRead, startTime)
              else
                c <- ITree.trigger (UartRead (serial_ this)) ;;
                match store buffer bytesRead (to_u8 c) with
                | Some buffer' =>
                    now' <- ITree.trigger Millis ;;
                    Ret (buffer', to_size_t (bytesRead + 1), now')
                | None => undefined
                end) ;;
      ITree.trigger (DelayMicroseconds 100) ;;
      Ret (inl st')
    else Ret (inr (Some buffer, bytesRead))
  else Ret (inr (Some buffer, bytesRead)).

(** [RS485::readBytes]: the buffer as left behind and the number of bytes
    read. *)
Definition readBytes (this : t) (buffer : option (list byte)) (length : Z)
  : itree hwE (option (list byte) * Z) :=
  match negb (initialized_ this), buffer with
  | true, _ => Ret (buffer, 0)
  | false, None => Ret (buffer, 0)
  | false, Some b =>
      startTime <- ITree.trigger Millis ;;
      ITree.iter (read_step this length) (b, 0, startTime)
  end.

(** [RS485::write(const uint8_t*, size_t)] *)
Definition write (this : t) (data : option (list byte)) (length : Z) : itree hwE Z :=
  match negb (initialized_ this), data with
  | true, _ => Ret 0
  | false, None => Ret 0
  | false, Some d =>
      setTransmitMode this ;;
      bytesWritten <- ITree.trigger (UartWrite (serial_ this) d length) ;;
      ITree.trigger (UartFlush (serial_ this)) ;;
      setReceiveMode this ;;
      Ret bytesWritten
  end.

(** [RS485::write(uint8_t)] *)
Definition write_byte (this : t) (b : byte) : itree hwE Z :=
  if negb (initialized_ this) then Ret 0
  else
    setTransmitMode this ;;
    bytesWritten <- ITree.trigger (UartWriteByte (serial_ this) b) ;;
    ITree.trigger (UartFlush (serial_ this)) ;;
    setReceiveMode this ;;
    Ret bytesWritten.

(** [RS485::flush] *)
Definition flush (this : t) : itree hwE unit :=
  if initialized_ this then ITree.trigger (UartFlush (serial_ this))
  else Ret tt.

(** [RS485::peek] *)
Definition peek (this : t) : itree hwE Z :=
  if negb (initialized_ this) then Ret (-1)
  else ITree.trigger (UartPeek (serial_ this)).

(** [RS485::read] *)
Definition read (this : t) : itree hwE Z :=
  if negb (initialized_ this) then Ret (-1)
  else ITree.trigger (UartRead (serial_ this)).

(** [RS485::isInitialized] *)
Definition isInitialized (this : t) : bool := initialized_ this.

End RS485.

(* ===================================================================== *)
(** ** FlexPool_ESP32/src/Statistics.cpp *)
(* ===================================================================== *)

Module Statistics.

Record t : Set := mk {
  packets_received_ : Z;
  packets_transmitted_ : Z;
  errors_ : Z;
  start_time_ : Z
}.

(** [Statistics::Statistics] *)
Definition new : itree hwE t :=
  now <- ITree.trigger Millis ;;
  Ret {| packets_received_ := 0; packets_transmitted_ := 0; errors_ := 0;
         start_time_ := now |}.

Definition incrementReceived (this : t) : t :=
  {| packets_received_ := to_ulong (packets_received_ this + 1);
     packets_transmitted_ := packets_transmitted_ this;
     errors_ := errors_ this;
     start_time_ := start_time_ this |}.

Definition incrementTransmitted (this : t) : t :=
  {| packets_received_ := packets_received_ this;
     packets_transmitted_ := to_ulong (packets_transmitted_ this + 1);
     errors_ := errors_ this;
     start_time_ := start_time_ this |}.

Definition incrementErrors (this : t) : t :=
  {| packets_received_ := packets_received_ this;
     packets_transmitted_ := packets_transmitted_ this;
     errors_ := to_ulong (errors_ this + 1);
     start_time_ := start_time_ this |}.

(** [Statistics::reset] *)
Definition reset (this : t) : itree hwE t :=
  now <- ITree.trigger Millis ;;
  Ret {| packets_received_ := 0; packets_transmitted_ := 0; errors_ := 0;
         start_time_ := now |}.

(** [Statistics::getUptimeSeconds]: the difference is taken in
    [unsigned long]. *)
Definition getUptimeSeconds (this : t) : itree hwE Z :=
  now <- ITree.trigger Millis ;;
  Ret (to_ulong (now - start_time_ this) / 1000).

End Statistics.

(* ===================================================================== *)
(** ** FlexPool_ESP32/src/Application.cpp *)
(* ===================================================================== *)

Module Application.

(** The members that hold state; [command_handler_] only refers to
    [rs485_] and [statistics_]. *)
Record t : Set := mk {
  rs485_ : RS485.t;
  statistics_ : Statistics.t;
  rx_buffer_ : list byte;
  last_activity_ : Z;
  last_stats_print_ : Z
}.

Definition with_statistics (this : t) (s : Statistics.t) : t :=
  {| rs485_ := rs485_ this; statistics_ := s; rx_buffer_ := rx_buffer_ this;
     last_activity_ := last_activity_ this;
     last_stats_print_ := last_stats_print_ this |}.

(** The loop of [printHexData]: [n] iterations left, at index [i]. *)
Fixpoint print_bytes (data : list byte) (n : nat) (i : Z) : itree hwE unit :=
  match n with
  | O => Ret tt
  | S n' =>
      match load data i with
      | Some b =>
          ITree.trigger (Printf Serial "%02X "%string [ArgInt (u8 b)]) ;;
          print_bytes data n' (i + 1)
      | None => undefined
      end
  end.

(** [Application::printHexData] *)
Definition printHexData (prefix : String.string) (data : option (list byte))
    (length : Z) : itree hwE unit :=
  match data with
  | None => Ret tt
  | Some d =>
      if length =? 0 then Ret tt
      else
        ITree.trigger (Printf Serial "[%s] %d bytes: "%string [ArgStr prefix; ArgInt length]) ;;
        print_bytes d (Z.to_nat length) 0 ;;
        ITree.trigger (Println Serial String.EmptyString)
  end.

(** [Application::forwardToNetwork]: its body is empty. *)
Definition forwardToNetwork (this : t) (data : option (list byte)) (length : Z)
  : itree hwE t :=
  Ret this.

(** [Application::sendRS485Data] *)
Definition sendRS485Data (this : t) (data : option (list byte)) (length : Z)
  : itree hwE t :=
  match data with
  | None => Ret this
  | Some d =>
      if length =? 0 then Ret this
      else if RS485_BUFFER_SIZE <? length then
        ITree.trigger (Println Serial "ERROR: Data too large to transmit"%string) ;;
        Ret (with_statistics this (Statistics.incrementErrors (statistics_ this)))
      else
        written <- RS485.write (rs485_ this) data length ;;
        if written =? length then
          let this' :=
            with_statistics this (Statistics.incrementTransmitted (statistics_ this)) in
          (if ifdef DEBUG_MODE then printHexData "TX"%string data length else Ret tt) ;;
          Ret this'
        else
          let this' :=
            with_statistics this (Statistics.incrementErrors (statistics_ this)) in
          ITree.trigger (Println Serial "ERROR: Failed to transmit RS-485 data"%string) ;;
          Ret this'
  end.

(** [Application::processReceivedPacket] *)
Definition processReceivedPacket (this : t) (data : option (list byte)) (length : Z)
  : itree hwE t :=
  match data with
  | None => Ret this
  | Some d =>
      if length =? 0 then Ret this
      else
        this <- (if ifdef ECHO_MODE then sendRS485Data this data length
                 else Ret this) ;;
        (if ifdef ENABLE_WIFI then forwardToNetwork this data length
         else Ret this)
  end.

(** The line feed an escape [\n] of the source stands for. *)
Definition nl : String.string := String.String (Ascii.ascii_of_nat 10) String.EmptyString.

(** [Application::initWiFi] *)
Definition initWiFi : itree hwE unit :=
  ITree.trigger (Println Serial "Initializing WiFi..."%string) ;;
  ITree.trigger (Println Serial "WiFi initialized (not yet implemented)"%string).

(** [Application::initialize]. [Serial.begin(115200)] leaves configuration
    and pins to the defaults of [HardwareSerial::begin], [SERIAL_8N1] and
    [-1]. *)
Definition initialize (this : t) : itree hwE (t * bool) :=
  ITree.trigger (UartBegin Serial 115200 SERIAL_8N1 (-1) (-1)) ;;
  ITree.trigger (Delay 1000) ;;
  ITree.trigger (Println Serial (nl ++ nl ++ "=================================")%string) ;;
  ITree.trigger (Println Serial "FlexPool ESP32 RS-485 Interface"%string) ;;
  ITree.trigger (Println Serial ("=================================" ++ nl)%string) ;;
  res <- RS485.begin (rs485_ this) RS485_BAUD_RATE ;;
  let this1 :=
    {| rs485_ := fst res; statistics_ := statistics_ this; rx_buffer_ := rx_buffer_ this;
       last_activity_ := last_activity_ this;
       last_stats_print_ := last_stats_print_ this |} in
  if snd res then
    ITree.trigger (Println Serial "RS-485 initialized successfully"%string) ;;
    ITree.trigger (Printf Serial ("Baud Rate: %d" ++ nl)%string [ArgInt RS485_BAUD_RATE]) ;;
    ITree.trigger (Printf Serial ("DE/RE Pin: %d" ++ nl)%string [ArgInt RS485_DE_RE_PIN]) ;;
    ITree.trigger (Printf Serial ("TX Pin: %d" ++ nl)%string [ArgInt RS485_TX_PIN]) ;;
    ITree.trigger (Printf Serial ("RX Pin: %d" ++ nl)%string [ArgInt RS485_RX_PIN]) ;;
    (if ifdef ENABLE_WIFI then initWiFi else Ret tt) ;;
    ITree.trigger
      (Println Serial (nl ++ "System ready. Waiting for RS-485 data..." ++ nl)%string) ;;
    now <- ITree.trigger Millis ;;
    Ret ({| rs485_ := rs485_ this1; statistics_ := statistics_ this1;
            rx_buffer_ := rx_buffer_ this1; last_activity_ := now;
            last_stats_print_ := last_stats_print_ this1 |}, true)
  else
    ITree.trigger (Println Serial "ERROR: RS-485 initialization failed!"%string) ;;
    Ret (this1, false).

End Application.

(* ===================================================================== *)
(** ** FlexPool_ESP32/src/main.cpp *)
(* ===================================================================== *)

Module Main.

(** [setup], for the global [app]: a failed initialisation halts in
    [while (true) delay(1000)]. *)
Definition setup (app : Application.t) : itree hwE Application.t :=
  res <- Application.initialize app ;;
  if negb (snd res) then ITree.forever (ITree.trigger (Delay 1000))
  else Ret (fst res).

End Main.

(* ===================================================================== *)
(** ** The command scheduler *)
(* ===================================================================== *)

(** Modelled from the spec: the Command Scheduler of the link-layer engine
    (section 4.4: states, pending command, external-program repeat timer,
    status poll, [submit], [tick], [onFrameReceived]). The sketch that drives
    the pump is not among the sources; of the scheduler only the timing
    constants of [PentairProtocol.h] are. Times are milliseconds of the
    simulated clock handed to [tick]. *)
Module Scheduler.

Inductive CommandKind : Set :=
| WriteRegister | SetRunStop | SetMode | SetRemoteLocal | QueryStatus.

Definition kind_eqb (a b : CommandKind) : bool :=
  match a, b with
  | WriteRegister, WriteRegister | SetRunStop, SetRunStop | SetMode, SetMode
  | SetRemoteLocal, SetRemoteLocal | QueryStatus, QueryStatus => true
  | _, _ => false
  end.

(** The command identifier of a kind on the wire. *)
Definition command_id (k : CommandKind) : byte :=
  match k with
  | WriteRegister => CMD_WRITE_REG
  | SetRemoteLocal => CMD_CTRL
  | SetMode => CMD_MODE
  | SetRunStop => CMD_RUN
  | QueryStatus => CMD_STATUS
  end.

(** What is sent: kind, target address and encoded payload. *)
Record Command : Set := {
  kind : CommandKind;
  target : byte;
  payload : list byte
}.

Record PendingCommand : Set := {
  command : Command;
  issuedAt : Z;
  deadline : Z;
  retriesLeft : nat;
  repeatInterval : option Z
}.

Record Frame : Set := {
  version : byte;
  destination : byte;
  source : byte;
  commandId : byte;
  data : list byte;
  checksum : Z
}.

Record DecodedStatus : Set := {
  fields : list byte;
  valid : bool;
  lastUpdatedAt : Z
}.

Inductive State : Set := IDLE | AWAITING_RESPONSE | RETRY.

Record t : Set := {
  state : State;
  outstanding : option PendingCommand;
  queue : list Command;
  (** [EXTERNAL_PROGRAM_ACTIVE]: the command to re-issue and when it is due. *)
  extProgram : option (Command * Z);
  lastBusActivity : Z;
  clock : Z;
  status : DecodedStatus
}.

(** What the scheduler does on a call, in order. *)
Inductive Action : Set :=
| Write (c : Command)
| Reissue (c : Command)
| Failed (c : Command).

Inductive SubmitResult : Set := Accepted | Busy.

Record Config : Set := {
  ownAddress : byte;
  pumpAddress : byte;
  retryLimit : nat
}.

Definition init (now : Z) : t :=
  {| state := IDLE; outstanding := None; queue := []; extProgram := None;
     lastBusActivity := now; clock := now;
     status := {| fields := []; valid := false; lastUpdatedAt := now |} |}.

(** Mode bytes [0x09 .. 0x0C] select external programs 1 to 4. *)
Definition is_external_program_mode (m : byte) : bool :=
  (u8 MODE_EXT_PROG_1 <=? u8 m) && (u8 m <=? u8 MODE_EXT_PROG_4).

Definition selects_external_program (c : Command) : bool :=
  match kind c, payload c with
  | SetMode, [m] => is_external_program_mode m
  | _, _ => false
  end.

Definition changes_mode_away (c : Command) : bool :=
  match kind c, payload c with
  | SetMode, [m] => negb (is_external_program_mode m)
  | _, _ => false
  end.

Definition poll (cfg : Config) : Command :=
  {| kind := QueryStatus; target := pumpAddress cfg; payload := [] |}.

(** A pending command as written at time [now]; the repeat interval is set
    only for commands that select an external program. *)
Definition issue (now : Z) (retries : nat) (c : Command) : PendingCommand :=
  {| command := c; issuedAt := now; deadline := now + CMD_RESPONSE_TIMEOUT;
     retriesLeft := retries;
     repeatInterval :=
       if selects_external_program c then Some EXT_PROG_REPEAT_INTERVAL else None |}.

(** Modelled from the spec: [submit] of section 4.4. A poll request queues;
    any other command is rejected while one is outstanding and is written at once otherwise. A command that
    changes the mode away from an external program disarms the repeat
    timer together with its acceptance. *)
Definition submit (cfg : Config) (c : Command) (s : t) : t * SubmitResult * list Action :=
  match kind c with
  | QueryStatus =>
      ({| state := state s; outstanding := outstanding s; queue := queue s ++ [c];
          extProgram := extProgram s; lastBusActivity := lastBusActivity s;
          clock := clock s; status := status s |}, Accepted, [])
  | _ =>
      match outstanding s with
      | Some _ => (s, Busy, [])
      | None =>
          ({| state := AWAITING_RESPONSE;
              outstanding := Some (issue (clock s) (retryLimit cfg) c);
              queue := queue s;
              extProgram := if changes_mode_away c then None else extProgram s;
              lastBusActivity := clock s; clock := clock s; status := status s |},
           Accepted, [Write c])
      end
  end.

(** The collaborator cancels the external program explicitly. *)
Definition cancelExternalProgram (s : t) : t :=
  {| state := state s; outstanding := outstanding s; queue := queue s;
     extProgram := None; lastBusActivity := lastBusActivity s;
     clock := clock s; status := status s |}.

(** The engine acts on frames for its own address or for broadcast, and
    trusts frames from the configured pump. *)
Definition addressed_to_us (cfg : Config) (f : Frame) : bool :=
  Byte.eqb (destination f) (ownAddress cfg) || Byte.eqb (destination f) ADDR_BROADCAST.

Definition from_pump (cfg : Config) (f : Frame) : bool :=
  Byte.eqb (source f) (pumpAddress cfg).

Definition matches (f : Frame) (p : PendingCommand) : bool :=
  Byte.eqb (source f) (target (command p))
  && Byte.eqb (commandId f) (command_id (kind (command p))).

(** Modelled from the spec: [onFrameReceived] of section 4.4. A frame for
    another device is ignored; a status
    response of the pump updates the status; a frame that matches the
    outstanding command resolves it, and arms the repeat timer when that
    command selected an external program. *)
Definition onFrameReceived (cfg : Config) (f : Frame) (s : t) : t :=
  if negb (addressed_to_us cfg f) then s
  else
    let status' :=
      if from_pump cfg f && Byte.eqb (commandId f) CMD_STATUS
      then {| fields := data f; valid := true; lastUpdatedAt := clock s |}
      else status s in
    match outstanding s with
    | Some p =>
        if matches f p then
          {| state := IDLE; outstanding := None; queue := queue s;
             extProgram :=
               match repeatInterval p with
               | Some i => Some (command p, clock s + i)
               | None => extProgram s
               end;
             lastBusActivity := clock s; clock := clock s; status := status' |}
        else
          {| state := state s; outstanding := outstanding s; queue := queue s;
             extProgram := extProgram s; lastBusActivity := clock s;
             clock := clock s; status := status' |}
    | None =>
        {| state := state s; outstanding := outstanding s; queue := queue s;
           extProgram := extProgram s; lastBusActivity := clock s;
           clock := clock s; status := status' |}
    end.

(** Modelled from the spec: the response timeout of section 4.4. [RETRY] writes the same command again while retries
    are left, then the command fails and the scheduler is [IDLE]. *)
Definition expire (now : Z) (s : t) : t * list Action :=
  match outstanding s with
  | Some p =>
      if deadline p <=? now then
        match retriesLeft p with
        | S r =>
            ({| state := AWAITING_RESPONSE;
                outstanding :=
                  Some {| command := command p; issuedAt := now;
                          deadline := now + CMD_RESPONSE_TIMEOUT;
                          retriesLeft := r; repeatInterval := repeatInterval p |};
                queue := queue s; extProgram := extProgram s;
                lastBusActivity := now; clock := clock s; status := status s |},
             [Write (command p)])
        | O =>
            ({| state := IDLE; outstanding := None; queue := queue s;
                extProgram := extProgram s; lastBusActivity := lastBusActivity s;
                clock := clock s;
                status := {| fields := fields (status s); valid := false;
                             lastUpdatedAt := lastUpdatedAt (status s) |} |},
             [Failed (command p)])
        end
      else (s, [])
  | None => (s, [])
  end.

(** Modelled from the spec: the repeat timer of [EXTERNAL_PROGRAM_ACTIVE]
    (section 4.4). When it is due the command is re-issued, enqueued
    ahead of any other pending work, and the timer is armed again. *)
Definition repeat_due (now : Z) (s : t) : bool :=
  match extProgram s with
  | Some (_, due) => due <=? now
  | None => false
  end.

(** Modelled from the spec: the re-issue itself, the same command enqueued
    ahead of any other pending work. *)
Definition reissue (now : Z) (s : t) : t * list Action :=
  match extProgram s with
  | Some (c, due) =>
      if due <=? now then
        ({| state := state s; outstanding := outstanding s; queue := c :: queue s;
            extProgram := Some (c, now + EXT_PROG_REPEAT_INTERVAL);
            lastBusActivity := lastBusActivity s; clock := clock s;
            status := status s |},
         [Reissue c])
      else (s, [])
  | None => (s, [])
  end.

(** Modelled from the spec: the periodic status poll of section 4.4,
    enqueued behind the other work when the bus has been
    idle for the poll interval; it defers to a repeat that is due. *)
Definition enqueue_poll (cfg : Config) (now : Z) (repeated : bool) (s : t) : t :=
  if negb repeated && (STATUS_QUERY_INTERVAL <=? now - lastBusActivity s)
     && negb (existsb (fun c => kind_eqb (kind c) QueryStatus) (queue s))
  then {| state := state s; outstanding := outstanding s;
          queue := queue s ++ [poll cfg]; extProgram := extProgram s;
          lastBusActivity := lastBusActivity s; clock := clock s;
          status := status s |}
  else s.

(** Modelled from the spec: dispatch in submission order (section 5). With
    nothing outstanding the head of the queue is written. *)
Definition dispatch (cfg : Config) (now : Z) (s : t) : t * list Action :=
  match outstanding s, queue s with
  | None, c :: q =>
      ({| state := AWAITING_RESPONSE;
          outstanding := Some (issue now (retryLimit cfg) c);
          queue := q; extProgram := extProgram s; lastBusActivity := now;
          clock := clock s; status := status s |},
       [Write c])
  | _, _ => (s, [])
  end.

Definition set_clock (now : Z) (s : t) : t :=
  {| state := state s; outstanding := outstanding s; queue := queue s;
     extProgram := extProgram s; lastBusActivity := lastBusActivity s;
     clock := now; status := status s |}.

(** Modelled from the spec: [tick(now)] of section 4.4, which drives the
    timeout and retry, repeat and poll timers, then dispatches. *)
Definition tick (cfg : Config) (now : Z) (s : t) : t * list Action :=
  let s := set_clock now s in
  let '(s, a1) := expire now s in
  let repeated := repeat_due now s in
  let '(s, a2) := reissue now s in
  let s := enqueue_poll cfg now repeated s in
  let '(s, a3) := dispatch cfg now s in
  (s, a1 ++ a2 ++ a3).

(** Time advances through the given calls of [tick], nothing else happens. *)
Fixpoint run_ticks (cfg : Config) (times : list Z) (s : t) : t * list Action :=
  match times with
  | [] => (s, [])
  | now :: rest =>
      let '(s', a) := tick cfg now s in
      let '(s'', a') := run_ticks cfg rest s' in
      (s'', a ++ a')
  end.

(** The commands re-issued by the repeat timer among some actions. *)
Fixpoint reissued (acts : list Action) : list Command :=
  match acts with
  | [] => []
  | Reissue c :: rest => c :: reissued rest
  | _ :: rest => reissued rest
  end.

End Scheduler.

(* ===================================================================== *)
(** ** Frames, states and runs the properties below refer to *)
(* ===================================================================== *)

(** The status query of the specification's scenario, as built. *)
Definition status_query_frame : list byte :=
  [xff; x00; xff; xa5; x00; x60; x20; x07; x00; x01; x2c].

(** The length byte of a payload of at most 255 bytes. *)
Definition len_byte (data : list byte) : byte := to_u8 (Z.of_nat (List.length data)).

(** A well-formed frame from main controller [0x10] to main controller
    [0x10]: neither addressed to a remote controller nor broadcast, and not
    sent by a pump. *)
Definition foreign_frame : list byte :=
  [xff; x00; xff; xa5; x00; x10; x10; x07; x00; x00; xcc].

(** The application once [initialize] has run [rs485_.begin]. *)
Definition app_ready : Application.t :=
  {| Application.rs485_ :=
       {| RS485.serial_ := RS485_SERIAL; RS485.de_re_pin_ := RS485_DE_RE_PIN;
          RS485.tx_pin_ := RS485_TX_PIN; RS485.rx_pin_ := RS485_RX_PIN;
          RS485.initialized_ := true |};
     Application.statistics_ :=
       {| Statistics.packets_received_ := 0; Statistics.packets_transmitted_ := 0;
          Statistics.errors_ := 0; Statistics.start_time_ := 0 |};
     Application.rx_buffer_ := repeat x00 256;
     Application.last_activity_ := 0;
     Application.last_stats_print_ := 0 |}.

(** What the board sees when [foreign_frame] is handled and the UART accepts
    all eleven bytes. *)
Definition echo_trace : list answered :=
  [ Ans (DigitalWrite 4 HIGH) tt;
    Ans (DelayMicroseconds 10) tt;
    Ans (UartWrite Serial2 foreign_frame 11) 11;
    Ans (UartFlush Serial2) tt;
    Ans (DelayMicroseconds 10) tt;
    Ans (DigitalWrite 4 LOW) tt;
    Ans (Printf Serial "[%s] %d bytes: "%string [ArgStr "TX"%string; ArgInt 11]) tt;
    Ans (Printf Serial "%02X "%string [ArgInt 255]) tt;
    Ans (Printf Serial "%02X "%string [ArgInt 0]) tt;
    Ans (Printf Serial "%02X "%string [ArgInt 255]) tt;
    Ans (Printf Serial "%02X "%string [ArgInt 165]) tt;
    Ans (Printf Serial "%02X "%string [ArgInt 0]) tt;
    Ans (Printf Serial "%02X "%string [ArgInt 16]) tt;
    Ans (Printf Serial "%02X "%string [ArgInt 16]) tt;
    Ans (Printf Serial "%02X "%string [ArgInt 7]) tt;
    Ans (Printf Serial "%02X "%string [ArgInt 0]) tt;
    Ans (Printf Serial "%02X "%string [ArgInt 0]) tt;
    Ans (Printf Serial "%02X "%string [ArgInt 204]) tt;
    Ans (Println Serial String.EmptyString) tt ].

(** [processReceivedPacket] ignores a buffer when it returns at once, with
    the application unchanged and without any call to the board. *)
Definition ignores (this : Application.t) (data : option (list byte)) (length : Z) : Prop :=
  Application.processReceivedPacket this data length = Ret this.

Module SchedulerScenario.
Import Scheduler.

(** The scheduler after command [c] was submitted in state [s0] and the
    frame [f] came back. *)
Definition entered (cfg : Config) (c : Command) (f : Frame) (s0 : t) : t :=
  onFrameReceived cfg f (fst (fst (submit cfg c s0))).

Definition demo_config : Config :=
  {| ownAddress := ADDR_REMOTE_CONTROLLER; pumpAddress := ADDR_PUMP_1; retryLimit := 1 |}.

Definition select_program_1 : Command :=
  {| kind := SetMode; target := ADDR_PUMP_1; payload := [MODE_EXT_PROG_1] |}.

Definition program_1_ack : Frame :=
  {| version := PENTAIR_VERSION; destination := ADDR_REMOTE_CONTROLLER;
     source := ADDR_PUMP_1; commandId := CMD_MODE; data := [MODE_EXT_PROG_1];
     checksum := 308 |}.

End SchedulerScenario.

(* ===================================================================== *)
(** ** Notions used to state further properties of the sources *)
(* ===================================================================== *)

(** The four bytes of [buffer] from index [j] on are [FF 00 FF A5]. *)
Definition has_marker_at (buffer : list byte) (j : nat) : Prop :=
  slice buffer j 4 = PENTAIR_PREAMBLE.

(** [post t Q]: every run of [t] that returns satisfies [Q] on the calls it
    made and the value it returned. *)
Definition post {R : Type} (t : itree hwE R) (Q : list answered -> R -> Prop) : Prop :=
  forall tr r, runs t tr r -> Q tr r.

(** What the board sees of one transmission: driver enabled, guard delay,
    the UART call [sent], flush, guard delay, driver disabled. *)
Definition write_trace (this : RS485.t) (sent : answered) : list answered :=
  [ Ans (DigitalWrite (RS485.de_re_pin_ this) HIGH) tt;
    Ans (DelayMicroseconds RS485_PRE_TX_DELAY_US) tt;
    sent;
    Ans (UartFlush (RS485.serial_ this)) tt;
    Ans (DelayMicroseconds RS485_POST_TX_DELAY_US) tt;
    Ans (DigitalWrite (RS485.de_re_pin_ this) LOW) tt ].

(** [this] once [begin] has returned. *)
Definition begun (this : RS485.t) : RS485.t :=
  {| RS485.serial_ := RS485.serial_ this; RS485.de_re_pin_ := RS485.de_re_pin_ this;
     RS485.tx_pin_ := RS485.tx_pin_ this; RS485.rx_pin_ := RS485.rx_pin_ this;
     RS485.initialized_ := true |}.

(** The answers of the UART to [read()] in a trace, in order. *)
Fixpoint uart_reads (tr : list answered) : list Z :=
  match tr with
  | [] => []
  | Ans e x :: rest =>
      match e in hwE X return X -> list Z with
      | UartRead _ => fun c => c :: uart_reads rest
      | _ => fun _ => uart_reads rest
      end x
  end.

(** The calls a receive may make: clock, [available()] and [read()] of the
    given port, and the pause between polls. *)
Definition rx_call (port : Port) (a : answered) : Prop :=
  match a with
  | Ans e _ =>
      match e with
      | Millis => True
      | UartAvailable p => p = port
      | UartRead p => p = port
      | DelayMicroseconds us => us = 100
      | _ => False
      end
  end.

(** What [readBytes] leaves behind when it has read [n] bytes into a buffer
    that held [b] before: [n] is within the request and the buffer, the
    first [n] bytes are the UART's answers in order, the rest of the buffer
    is as before, and only receive-side calls were made. *)
Definition received (port : Port) (b : list byte) (length : Z)
    (tr : list answered) (b' : list byte) (n : Z) : Prop :=
  0 <= n <= length
  /\ n <= Z.of_nat (List.length b)
  /\ List.length b' = List.length b
  /\ firstn (Z.to_nat n) b' = List.map to_u8 (uart_reads tr)
  /\ skipn (Z.to_nat n) b' = skipn (Z.to_nat n) b
  /\ Forall (rx_call port) tr.

(** A receive of two bytes: both are waiting in the UART, the third
    evaluation of the loop condition ends the call. *)
Definition rx_demo_trace : list answered :=
  [ Ans Millis 0;
    Ans Millis 0; Ans (UartAvailable Serial2) 2; Ans (UartRead Serial2) 165;
    Ans Millis 1; Ans (DelayMicroseconds 100) tt;
    Ans Millis 1; Ans (UartAvailable Serial2) 1; Ans (UartRead Serial2) 7;
    Ans Millis 2; Ans (DelayMicroseconds 100) tt ].

(** The calls that only write to the USB console. *)
Definition console_call (a : answered) : Prop :=
  match a with
  | Ans e _ =>
      match e with
      | Println Serial _ => True
      | Printf Serial _ _ => True
      | _ => False
      end
  end.

(** [this] with one more error counted, and with one more packet counted as
    transmitted. *)
Definition error_counted (this : Application.t) : Application.t :=
  Application.with_statistics this
    (Statistics.incrementErrors (Application.statistics_ this)).

Definition transmission_counted (this : Application.t) : Application.t :=
  Application.with_statistics this
    (Statistics.incrementTransmitted (Application.statistics_ this)).

(** What the board sees of [initialize] when the clock reads [now] at its
    end. *)
Definition init_trace (this : Application.t) (now : Z) : list answered :=
  [ Ans (UartBegin Serial 115200 SERIAL_8N1 (-1) (-1)) tt;
    Ans (Delay 1000) tt;
    Ans (Println Serial
           (Application.nl ++ Application.nl ++ "=================================")%string) tt;
    Ans (Println Serial "FlexPool ESP32 RS-485 Interface"%string) tt;
    Ans (Println Serial ("=================================" ++ Application.nl)%string) tt;
    Ans (PinMode (RS485.de_re_pin_ (Application.rs485_ this)) OUTPUT) tt;
    Ans (DelayMicroseconds RS485_POST_TX_DELAY_US) tt;
    Ans (DigitalWrite (RS485.de_re_pin_ (Application.rs485_ this)) LOW) tt;
    Ans (UartBegin (RS485.serial_ (Application.rs485_ this)) RS485_BAUD_RATE SERIAL_8N1
           (RS485.rx_pin_ (Application.rs485_ this))
           (RS485.tx_pin_ (Application.rs485_ this))) tt;
    Ans (Delay 100) tt;
    Ans (Println Serial "RS-485 initialized successfully"%string) tt;
    Ans (Printf Serial ("Baud Rate: %d" ++ Application.nl)%string [ArgInt RS485_BAUD_RATE]) tt;
    Ans (Printf Serial ("DE/RE Pin: %d" ++ Application.nl)%string [ArgInt RS485_DE_RE_PIN]) tt;
    Ans (Printf Serial ("TX Pin: %d" ++ Application.nl)%string [ArgInt RS485_TX_PIN]) tt;
    Ans (Printf Serial ("RX Pin: %d" ++ Application.nl)%string [ArgInt RS485_RX_PIN]) tt;
    Ans (Println Serial "Initializing WiFi..."%string) tt;
    Ans (Println Serial "WiFi initialized (not yet implemented)"%string) tt;
    Ans (Println Serial
           (Application.nl ++ "System ready. Waiting for RS-485 data..."
              ++ Application.nl)%string) tt;
    Ans Millis now ].

(** [this] once [initialize] has returned at clock value [now]. *)
Definition initialized_at (this : Application.t) (now : Z) : Application.t :=
  {| Application.rs485_ := begun (Application.rs485_ this);
     Application.statistics_ := Application.statistics_ this;
     Application.rx_buffer_ := Application.rx_buffer_ this;
     Application.last_activity_ := now;
     Application.last_stats_print_ := Application.last_stats_print_ this |}.
(* ===================================================================== *)
(** ** Facts on machine integers *)
(* ===================================================================== *)

Section CIntFacts.

Lemma u8_range (b : byte) : 0 <= u8 b < 256.
Proof.
  unfold u8. pose proof (Byte.to_N_bounded b). lia.
Qed.

Lemma u8_to_u8 (z : Z) : u8 (to_u8 z) = z mod 256.
Proof.
  unfold to_u8, u8.
  assert (Hr : 0 <= z mod 256 < 256) by (apply Z.mod_pos_bound; lia).
  destruct (Byte.of_N (Z.to_N (z mod 256))) as [b|] eqn:E.
  - apply Byte.to_of_N in E. rewrite E. lia.
  - apply Byte.of_N_None_iff in E. lia.
Qed.

Lemma to_u8_u8 (b : byte) : to_u8 (u8 b) = b.
Proof.
  unfold to_u8, u8. pose proof (Byte.to_N_bounded b) as Hb.
  rewrite Z.mod_small by lia. rewrite N2Z.id.
  now rewrite Byte.of_to_N.
Qed.

Lemma u8_inj (a b : byte) : u8 a = u8 b -> a = b.
Proof.
  intros H. rewrite <- (to_u8_u8 a), <- (to_u8_u8 b). now rewrite H.
Qed.

Lemma to_u16_range (z : Z) : 0 <= to_u16 z < 65536.
Proof. unfold to_u16. apply Z.mod_pos_bound. lia. Qed.

Lemma to_u16_small (z : Z) : 0 <= z < 65536 -> to_u16 z = z.
Proof. intros H. unfold to_u16. apply Z.mod_small. simpl. lia. Qed.

Lemma to_u16_add_l (a b : Z) : to_u16 (to_u16 a + b) = to_u16 (a + b).
Proof. unfold to_u16. apply Zplus_mod_idemp_l. Qed.

Lemma to_size_t_small (z : Z) : 0 <= z < 2 ^ 32 -> to_size_t z = z.
Proof. intros H. unfold to_size_t. now apply Z.mod_small. Qed.

Lemma hi_byte (c : Z) : 0 <= c < 65536 -> Z.land (Z.shiftr c 8) 255 = c / 256.
Proof.
  intros H. change 255 with (Z.ones 8). rewrite Z.land_ones by lia.
  rewrite Z.shiftr_div_pow2 by lia. change (2 ^ 8) with 256.
  apply Z.mod_small. split.
  - apply Z.div_pos; lia.
  - apply Z.div_lt_upper_bound; lia.
Qed.

Lemma lo_byte (c : Z) : Z.land c 255 = c mod 256.
Proof. change 255 with (Z.ones 8). now rewrite Z.land_ones by lia. Qed.

(** [(hi << 8) | lo] is [256 * hi + lo] on bytes. *)
Lemma shift_or_bytes (h l : Z) :
  0 <= h < 256 -> 0 <= l < 256 -> Z.lor (Z.shiftl h 8) l = 256 * h + l.
Proof.
  intros Hh Hl. rewrite Z.shiftl_mul_pow2 by lia. change (2 ^ 8) with 256.
  rewrite <- Z.lxor_lor.
  - rewrite <- Z.add_nocarry_lxor; [lia|].
    apply Z.bits_inj'. intros n Hn. rewrite Z.land_spec, Z.bits_0.
    destruct (Z.ltb_spec n 8).
    + replace (h * 256) with (h * 2 ^ 8) by reflexivity.
      rewrite Z.mul_pow2_bits_low by lia. reflexivity.
    + rewrite (Z.bits_above_log2 l n); [apply andb_false_r|lia|].
      destruct (Z.eq_dec l 0) as [->|]; [simpl; lia|].
      apply Z.log2_lt_pow2; [lia|].
      apply Z.lt_le_trans with (2 ^ 8); [simpl; lia|].
      apply Z.pow_le_mono_r; lia.
  - apply Z.bits_inj'. intros n Hn. rewrite Z.land_spec, Z.bits_0.
    destruct (Z.ltb_spec n 8).
    + replace (h * 256) with (h * 2 ^ 8) by reflexivity.
      rewrite Z.mul_pow2_bits_low by lia. reflexivity.
    + rewrite (Z.bits_above_log2 l n); [apply andb_false_r|lia|].
      destruct (Z.eq_dec l 0) as [->|]; [simpl; lia|].
      apply Z.log2_lt_pow2; [lia|].
      apply Z.lt_le_trans with (2 ^ 8); [simpl; lia|].
      apply Z.pow_le_mono_r; lia.
Qed.

(** The two bytes stored by the builder denote the checksum again. *)
Lemma be16_checksum_bytes (c : Z) :
  0 <= c < 65536 ->
  be16 (to_u8 (Z.land (Z.shiftr c 8) 255)) (to_u8 (Z.land c 255)) = c.
Proof.
  intros H. unfold be16. rewrite !u8_to_u8, hi_byte, lo_byte by lia.
  rewrite Z.mod_mod by lia.
  rewrite (Z.mod_small (c / 256)).
  - pose proof (Z.div_mod c 256). lia.
  - split; [apply Z.div_pos; lia | apply Z.div_lt_upper_bound; lia].
Qed.

(** What [pentairVerifyChecksum] reads back from the two trailing bytes. *)
Lemma received_be16 (hi lo : byte) :
  to_u16 (Z.lor (Z.shiftl (to_u16 (u8 hi)) 8) (u8 lo)) = be16 hi lo.
Proof.
  pose proof (u8_range hi). pose proof (u8_range lo).
  rewrite (to_u16_small (u8 hi)) by lia.
  rewrite shift_or_bytes by lia.
  unfold be16. apply to_u16_small. lia.
Qed.

End CIntFacts.

(* ===================================================================== *)
(** ** Facts on buffers and on the loops of the codec *)
(* ===================================================================== *)

Section MemFacts.

Lemma load_of_nat (p : list byte) (k : nat) :
  load p (Z.of_nat k) = nth_error p k.
Proof.
  unfold load. destruct (Z.ltb_spec (Z.of_nat k) 0); [lia|].
  now rewrite Nat2Z.id.
Qed.

Lemma load_app_at (pre rest : list byte) (x : byte) :
  load (pre ++ x :: rest) (Z.of_nat (List.length pre)) = Some x.
Proof.
  rewrite load_of_nat, nth_error_app2 by lia.
  now rewrite Nat.sub_diag.
Qed.

Lemma store_app_at (pre rest : list byte) (x b : byte) :
  store (pre ++ x :: rest) (Z.of_nat (List.length pre)) b = Some (pre ++ b :: rest).
Proof.
  unfold store. rewrite Nat2Z.id, length_app. simpl List.length.
  destruct (Z.leb_spec 0 (Z.of_nat (List.length pre))); [|lia].
  destruct (Z.ltb_spec (Z.of_nat (List.length pre))
              (Z.of_nat (List.length pre + S (List.length rest)))); [|lia].
  simpl andb. f_equal.
  rewrite firstn_app, Nat.sub_diag, firstn_all. simpl firstn. rewrite app_nil_r.
  f_equal. f_equal.
  replace (S (List.length pre)) with (1 + List.length pre)%nat by lia.
  rewrite <- skipn_skipn.
  rewrite skipn_app, Nat.sub_diag, skipn_all. reflexivity.
Qed.

Lemma slice_cons (p : list byte) (k n : nat) (b : byte) :
  nth_error p k = Some b -> slice p k (S n) = b :: slice p (S k) n.
Proof.
  unfold slice. revert k. induction p as [|a p IH]; intros [|k] H; simpl in *;
    try discriminate.
  - now inversion H.
  - now apply IH.
Qed.

Lemma slice_app_at (pre l rest : list byte) :
  slice (pre ++ l ++ rest) (List.length pre) (List.length l) = l.
Proof.
  unfold slice. rewrite skipn_app, Nat.sub_diag, skipn_all. simpl.
  rewrite firstn_app, Nat.sub_diag, firstn_all. simpl. apply app_nil_r.
Qed.

Lemma byte_sum_app (a b : list byte) : byte_sum (a ++ b) = byte_sum a + byte_sum b.
Proof. induction a as [|x a IH]; simpl; [reflexivity | rewrite IH; lia]. Qed.

Lemma byte_sum_nonneg (l : list byte) : 0 <= byte_sum l.
Proof.
  induction l as [|x l IH]; simpl; [lia|]. pose proof (u8_range x). lia.
Qed.

(** A prefix of [k] elements can be split off a list that has them. *)
Lemma split_at (l : list byte) (k : nat) :
  (k <= List.length l)%nat ->
  exists a b, l = a ++ b /\ List.length a = k.
Proof.
  intros H. exists (firstn k l), (skipn k l). split.
  - symmetry. apply firstn_skipn.
  - apply firstn_length_le. exact H.
Qed.

End MemFacts.

Section LoopFacts.

(** The checksum loop adds up a slice of the buffer modulo 2^16. *)
Lemma sum_loop_spec (p : list byte) (n : nat) :
  forall (k : nat) (s : Z),
    (k + n <= List.length p)%nat -> 0 <= s < 65536 ->
    for_loop n (Z.of_nat k) (add_byte p) s
    = Some (to_u16 (s + byte_sum (slice p k n))).
Proof.
  induction n as [|n IH]; intros k s Hk Hs.
  - simpl. unfold slice. simpl. rewrite Z.add_0_r. now rewrite to_u16_small.
  - simpl for_loop. unfold add_byte at 1. rewrite load_of_nat.
    destruct (nth_error p k) as [b|] eqn:E.
    + replace (Z.of_nat k + 1) with (Z.of_nat (S k)) by lia.
      rewrite IH by (try lia; apply to_u16_range).
      rewrite (slice_cons _ _ _ _ E). simpl byte_sum.
      f_equal. rewrite to_u16_add_l. f_equal. lia.
    + apply nth_error_None in E. lia.
Qed.

(** [puts] overwrites as many bytes as the list holds. *)
Lemma puts_spec (l : list byte) :
  forall (pre junk rest : list byte),
    List.length junk = List.length l ->
    Z.of_nat (List.length pre + List.length l) < 2 ^ 32 ->
    puts l (pre ++ junk ++ rest, Z.of_nat (List.length pre))
    = Some (pre ++ l ++ rest, Z.of_nat (List.length pre + List.length l)).
Proof.
  induction l as [|b l IH]; intros pre junk rest Hj Hb.
  - destruct junk; [|discriminate]. simpl. now rewrite Nat.add_0_r.
  - destruct junk as [|x junk]; [discriminate|]. simpl in Hj, Hb.
    simpl puts. unfold put. simpl app at 1. rewrite store_app_at.
    rewrite to_size_t_small by lia.
    replace (Z.of_nat (List.length pre) + 1)
      with (Z.of_nat (List.length (pre ++ [b]))) by (rewrite length_app; simpl; lia).
    replace (pre ++ b :: junk ++ rest) with ((pre ++ [b]) ++ junk ++ rest)
      by (now rewrite <- app_assoc).
    rewrite IH; [|lia|rewrite length_app; simpl; lia].
    rewrite <- app_assoc. simpl. f_equal. f_equal.
    rewrite length_app. simpl. lia.
Qed.

(** The data loop copies [data[i .. i+n-1]] behind the bytes written so far. *)
Lemma copy_loop_spec (data : list byte) (n : nat) :
  forall (i : nat) (pre junk rest : list byte),
    (i + n <= List.length data)%nat ->
    List.length junk = n ->
    Z.of_nat (List.length pre + n) < 2 ^ 32 ->
    for_loop n (Z.of_nat i) (copy_byte data) (pre ++ junk ++ rest, Z.of_nat (List.length pre))
    = Some (pre ++ slice data i n ++ rest, Z.of_nat (List.length pre + n)).
Proof.
  induction n as [|n IH]; intros i pre junk rest Hi Hj Hb.
  - destruct junk; [|discriminate]. unfold slice. simpl. now rewrite Nat.add_0_r.
  - destruct junk as [|x junk]; [discriminate|]. simpl in Hj.
    simpl for_loop. unfold copy_byte at 1. rewrite load_of_nat.
    destruct (nth_error data i) as [d|] eqn:E.
    + unfold put. simpl app at 1. rewrite store_app_at.
      rewrite to_size_t_small by lia.
      replace (Z.of_nat (List.length pre) + 1)
        with (Z.of_nat (List.length (pre ++ [d]))) by (rewrite length_app; simpl; lia).
      replace (pre ++ d :: junk ++ rest) with ((pre ++ [d]) ++ junk ++ rest)
        by (now rewrite <- app_assoc).
      replace (Z.of_nat i + 1) with (Z.of_nat (S i)) by lia.
      rewrite IH; [|lia|lia|rewrite length_app; simpl; lia].
      rewrite (slice_cons _ _ _ _ E).
      rewrite <- app_assoc. simpl. f_equal. f_equal.
      rewrite length_app. simpl. lia.
    + apply nth_error_None in E. lia.
Qed.

End LoopFacts.

(* ===================================================================== *)
(** ** The builder writes the frame of the wire format *)
(* ===================================================================== *)

Section BuildPacket.

Variables (dst src cmd dataLen : byte) (data : list byte).

Local Abbreviation n := (len_of dataLen).

(** The builder, with its straight-line stores grouped. *)
Lemma build_unfold (buffer : list byte) :
  pentairBuildPacket buffer dst src cmd data dataLen
  = let* st := puts [xff; x00; xff; xa5; PENTAIR_VERSION; dst; src; cmd; dataLen]
                 (buffer, 0) in
    let* st := for_range 0 (u8 dataLen) (copy_byte data) st in
    let* checksum := for_range PKT_IDX_LEAD (snd st) (add_byte (fst st)) 0 in
    puts (checksum_bytes checksum) st.
Proof.
  unfold pentairBuildPacket, checksum_bytes. cbn [puts].
  repeat (match goal with
          | |- context [put ?b (?x, ?y)] => destruct (put b (x, y)) as [[? ?]|]
          end; cbv beta iota; try reflexivity).
Qed.

(** Refinement: on a buffer that is large enough and data that holds
    [dataLen] bytes, [pentairBuildPacket] writes [frame_bytes] at the start
    of the buffer, leaves the rest of the buffer alone and returns
    [11 + dataLen]. *)
Lemma build_spec (buffer : list byte) :
  (n <= List.length data)%nat ->
  (11 + n <= List.length buffer)%nat ->
  pentairBuildPacket buffer dst src cmd data dataLen
  = Some (frame_bytes dst src cmd dataLen (firstn n data) ++ skipn (11 + n) buffer,
          11 + u8 dataLen).
Proof.
  intros Hd Hb.
  pose proof (u8_range dataLen) as Hr.
  assert (Hn : Z.of_nat n = u8 dataLen) by (unfold len_of; lia).
  destruct (split_at buffer 9 ltac:(lia)) as (j9 & b1 & -> & Hj9).
  rewrite length_app in Hb.
  destruct (split_at b1 n ltac:(lia)) as (jn & b2 & -> & Hjn).
  rewrite length_app in Hb.
  destruct (split_at b2 2 ltac:(lia)) as (j2 & rest & -> & Hj2).
  set (hdr := [xff; x00; xff; xa5; PENTAIR_VERSION; dst; src; cmd; dataLen]).
  set (payload := firstn n data).
  assert (Hp : List.length payload = n) by (apply firstn_length_le; exact Hd).
  assert (Hskip : skipn (11 + n) (j9 ++ jn ++ j2 ++ rest) = rest).
  { replace (11 + n)%nat with (List.length (j9 ++ jn ++ j2))
      by (rewrite !length_app; lia).
    replace (j9 ++ jn ++ j2 ++ rest) with ((j9 ++ jn ++ j2) ++ rest)
      by (now rewrite <- !app_assoc).
    now rewrite skipn_app, Nat.sub_diag, skipn_all. }
  rewrite Hskip. clear Hskip.
  rewrite build_unfold. fold hdr.
  (* header *)
  change (puts hdr (j9 ++ jn ++ j2 ++ rest, 0))
    with (puts hdr ([] ++ j9 ++ (jn ++ j2 ++ rest), Z.of_nat (List.length (@nil byte)))).
  rewrite puts_spec by (simpl; lia).
  simpl List.length. simpl Nat.add. rewrite app_nil_l.
  (* data *)
  unfold for_range at 1. rewrite Z.sub_0_r. fold (len_of dataLen).
  change (Z.of_nat 9) with (Z.of_nat (List.length hdr)).
  change 0 with (Z.of_nat 0) at 1.
  rewrite (copy_loop_spec data n 0 hdr jn (j2 ++ rest)) by (simpl; lia).
  change (slice data 0 n) with payload. cbv beta iota. cbn [fst snd].
  (* checksum *)
  set (body := frame_body dst src cmd dataLen payload).
  assert (Hbody : List.length body = (6 + n)%nat)
    by (unfold body, frame_body; rewrite length_app; simpl; lia).
  replace (hdr ++ payload ++ j2 ++ rest)
    with ([xff; x00; xff] ++ body ++ (j2 ++ rest))
    by (unfold body, frame_body, hdr; simpl; reflexivity).
  unfold for_range.
  replace (Z.to_nat (Z.of_nat (List.length hdr + n) - PKT_IDX_LEAD))
    with (List.length body) by (unfold PKT_IDX_LEAD; simpl List.length; lia).
  change PKT_IDX_LEAD with (Z.of_nat (List.length [xff; x00; xff])).
  rewrite sum_loop_spec by (rewrite ?length_app; simpl; lia).
  rewrite slice_app_at, Z.add_0_l. fold (checksum_of body).
  (* trailer *)
  replace ([xff; x00; xff] ++ body ++ j2 ++ rest)
    with (([xff; x00; xff] ++ body) ++ j2 ++ rest) by (now rewrite <- app_assoc).
  replace (List.length hdr + n)%nat with (List.length ([xff; x00; xff] ++ body))
    by (rewrite length_app; simpl; lia).
  rewrite puts_spec by (rewrite ?length_app; simpl; lia).
  f_equal. f_equal.
  - unfold frame_bytes. fold body. now rewrite <- !app_assoc.
  - rewrite length_app, Hbody. unfold checksum_bytes. simpl List.length. lia.
Qed.

End BuildPacket.

(* ===================================================================== *)
(** ** The receive side on a buffer laid out as a frame *)
(* ===================================================================== *)

Section Receive.

Variables (pre body : list byte) (hi lo : byte) (rest : list byte).
Hypothesis Hpre : List.length pre = 3%nat.
Hypothesis Hfit : Z.of_nat (List.length body) + 5 < 2 ^ 32.

Local Abbreviation total := (Z.of_nat (List.length body) + 5).

(** [pentairChecksum] adds up the bytes between the three leading bytes
    and the two trailing ones. *)
Lemma checksum_spec (tail : list byte) :
  pentairChecksum (pre ++ body ++ tail) total = Some (checksum_of body).
Proof.
  unfold pentairChecksum, for_range.
  rewrite to_size_t_small by lia.
  replace (Z.to_nat (Z.of_nat (List.length body) + 5 - 2 - PKT_IDX_LEAD))
    with (List.length body) by (unfold PKT_IDX_LEAD; lia).
  replace PKT_IDX_LEAD with (Z.of_nat (List.length pre))
    by (rewrite Hpre; reflexivity).
  rewrite sum_loop_spec by (rewrite ?length_app; lia).
  now rewrite slice_app_at, Z.add_0_l.
Qed.

Lemma load_hi : load (pre ++ body ++ hi :: lo :: rest) (total - 2) = Some hi.
Proof.
  replace (total - 2) with (Z.of_nat (List.length (pre ++ body)))
    by (rewrite length_app; lia).
  rewrite app_assoc. apply load_app_at.
Qed.

Lemma load_lo : load (pre ++ body ++ hi :: lo :: rest) (total - 1) = Some lo.
Proof.
  replace (total - 1) with (Z.of_nat (List.length ((pre ++ body) ++ [hi])))
    by (rewrite !length_app; simpl; lia).
  replace (pre ++ body ++ hi :: lo :: rest) with (((pre ++ body) ++ [hi]) ++ lo :: rest)
    by (rewrite <- !app_assoc; reflexivity).
  apply load_app_at.
Qed.

(** [pentairVerifyChecksum] compares that sum with the trailing pair. *)
Lemma verify_spec :
  (6 <= List.length body)%nat ->
  pentairVerifyChecksum (pre ++ body ++ hi :: lo :: rest) total
  = Some (checksum_of body =? be16 hi lo).
Proof.
  intros Hmin. unfold pentairVerifyChecksum.
  destruct (Z.ltb_spec total PENTAIR_MIN_PKT_LEN) as [Hlt|_].
  - unfold PENTAIR_MIN_PKT_LEN in Hlt. lia.
  - rewrite checksum_spec.
    rewrite !to_size_t_small by lia.
    rewrite load_hi, load_lo. now rewrite received_be16.
Qed.

End Receive.

Section FindMessage.

(** A buffer that starts with the marker is found at index 0. *)
Lemma find_marker_at_0 (tl : list byte) (length : Z) :
  PENTAIR_MIN_PKT_LEN <= length < 2 ^ 32 ->
  pentairFindMessage (xff :: x00 :: xff :: xa5 :: tl) length = Some 0.
Proof.
  intros H. unfold PENTAIR_MIN_PKT_LEN in H. unfold pentairFindMessage.
  destruct (Z.ltb_spec length PENTAIR_MIN_PKT_LEN) as [Hlt|_];
    [unfold PENTAIR_MIN_PKT_LEN in Hlt; lia|].
  rewrite to_size_t_small by lia.
  replace (length - 4 + 1) with (Z.succ (length - 4)) by lia.
  rewrite Z2Nat.inj_succ by lia.
  reflexivity.
Qed.

(** Below the minimum length nothing is looked at. *)
Lemma find_short (buffer : list byte) (length : Z) :
  length < PENTAIR_MIN_PKT_LEN -> pentairFindMessage buffer length = Some (-1).
Proof.
  intros H. unfold pentairFindMessage.
  destruct (Z.ltb_spec length PENTAIR_MIN_PKT_LEN); [reflexivity | lia].
Qed.

Lemma verify_short (packet : list byte) (length : Z) :
  length < PENTAIR_MIN_PKT_LEN -> pentairVerifyChecksum packet length = Some false.
Proof.
  intros H. unfold pentairVerifyChecksum.
  destruct (Z.ltb_spec length PENTAIR_MIN_PKT_LEN); [reflexivity | lia].
Qed.

End FindMessage.

Example build_status_query :
  pentairBuildPacket (repeat x00 11) ADDR_PUMP_1 ADDR_REMOTE_CONTROLLER CMD_STATUS [] x00
  = Some ([xff; x00; xff; xa5; x00; x60; x20; x07; x00; x01; x2c], 11).
Proof. vm_compute. reflexivity. Qed.

(* ===================================================================== *)
(** ** Properties of the frame codec *)
(* ===================================================================== *)

Section CodecLayout.

Variables (dst src cmd dataLen : byte) (data : list byte).

Local Abbreviation n := (len_of dataLen).
Local Abbreviation body := (frame_body dst src cmd dataLen (firstn n data)).
Local Abbreviation chk := (checksum_of body).

Lemma frame_layout (rest : list byte) :
  frame_bytes dst src cmd dataLen (firstn n data) ++ rest
  = [xff; x00; xff] ++ body
      ++ to_u8 (Z.land (Z.shiftr chk 8) 255) :: to_u8 (Z.land chk 255) :: rest.
Proof.
  unfold frame_bytes, checksum_bytes. now rewrite <- !app_assoc.
Qed.

Lemma body_length :
  (n <= List.length data)%nat ->
  Z.of_nat (List.length body) + 5 = 11 + u8 dataLen.
Proof.
  intros Hd. unfold frame_body. rewrite length_app, firstn_length_le by exact Hd.
  pose proof (u8_range dataLen). unfold len_of. simpl List.length. lia.
Qed.

Lemma body_length_nat :
  (n <= List.length data)%nat -> List.length body = (6 + n)%nat.
Proof.
  intros Hd. unfold frame_body. rewrite length_app, firstn_length_le by exact Hd.
  reflexivity.
Qed.

Lemma stored_checksum :
  be16 (to_u8 (Z.land (Z.shiftr chk 8) 255)) (to_u8 (Z.land chk 255)) = chk.
Proof. apply be16_checksum_bytes. apply to_u16_range. Qed.

End CodecLayout.

Lemma u16_shift_neq (s t a b : Z) :
  0 <= a < 256 -> 0 <= b < 256 -> a <> b ->
  to_u16 (s + a + t) <> to_u16 (s + b + t).
Proof.
  intros Ha Hb Hab. unfold to_u16. change (2 ^ 16) with 65536.
  intros H. Z.div_mod_to_equations. lia.
Qed.


(** C1 (as stated, refuted). For the status query to pump [0x60] from remote
    [0x20] the appended checksum is [01 2C] = 300, the sum that starts at the
    lead byte [0xA5]; the bytes from the version byte through the last data
    byte add up to 135 only. For a write with 255 payload bytes [0xFF] the
    appended checksum [00 26] = 38 is not the arithmetic sum 65574 of the
    summed bytes either (nor the 65409 from the version byte on): the sum is
    kept in 16 bits. *)
Lemma checksum_not_from_version_byte :
  (pentairBuildPacket (repeat x00 11) ADDR_PUMP_1 ADDR_REMOTE_CONTROLLER CMD_STATUS [] x00
   = Some (status_query_frame, 11)
   /\ load status_query_frame 9 = Some x01
   /\ load status_query_frame 10 = Some x2c
   /\ be16 x01 x2c = 300
   /\ byte_sum (slice status_query_frame 4 5) = 135
   /\ pentairChecksum status_query_frame 11 = Some 300)
  /\ (exists pkt,
        pentairBuildPacket (repeat x00 266) ADDR_PUMP_1 ADDR_REMOTE_CONTROLLER
          CMD_WRITE_REG (repeat xff 255) xff = Some (pkt, 266)
        /\ load pkt 264 = Some x00 /\ load pkt 265 = Some x26
        /\ be16 x00 x26 = 38
        /\ byte_sum (slice pkt 3 261) = 65574
        /\ byte_sum (slice pkt 4 260) = 65409).
Proof.
  split.
  - vm_compute. repeat split; reflexivity.
  - eexists. vm_compute. repeat split; reflexivity.
Qed.

(** C1 (amended). For every packet built by [pentairBuildPacket], the two
    bytes appended behind the data hold, big-endian, the sum modulo 2^16 of
    the bytes from the lead byte [0xA5] at index 3 (the last byte of the
    marker) through the last data byte; the first three marker bytes and the
    two checksum bytes are not summed, and [pentairChecksum] recomputes the
    same value over the same span. *)
Theorem checksum_covers_lead_through_data
    (buffer : list byte) (dst src cmd : byte) (data : list byte) (dataLen : byte) :
  (len_of dataLen <= List.length data)%nat ->
  (11 + len_of dataLen <= List.length buffer)%nat ->
  exists pkt hi lo,
    pentairBuildPacket buffer dst src cmd data dataLen = Some (pkt, 11 + u8 dataLen)
    /\ load pkt 3 = Some xa5
    /\ load pkt (9 + u8 dataLen) = Some hi
    /\ load pkt (10 + u8 dataLen) = Some lo
    /\ be16 hi lo = to_u16 (byte_sum (slice pkt 3 (6 + len_of dataLen)))
    /\ pentairChecksum pkt (11 + u8 dataLen) = Some (be16 hi lo).
Proof.
  intros Hd Hb.
  pose proof (u8_range dataLen) as Hr.
  pose proof (body_length dst src cmd dataLen data Hd) as Hlen.
  pose proof (body_length_nat dst src cmd dataLen data Hd) as Hlenn.
  pose proof (stored_checksum dst src cmd dataLen data) as Hst.
  pose proof (frame_layout dst src cmd dataLen data
                (skipn (11 + len_of dataLen) buffer)) as Hlay.
  pose proof (build_spec dst src cmd dataLen data buffer Hd Hb) as Hbuild.
  rewrite Hlay in Hbuild. clear Hlay.
  set (body := frame_body dst src cmd dataLen (firstn (len_of dataLen) data)) in *.
  eexists. exists (to_u8 (Z.land (Z.shiftr (checksum_of body) 8) 255)).
  exists (to_u8 (Z.land (checksum_of body) 255)).
  split; [exact Hbuild|].
  split; [reflexivity|].
  split.
  { replace (9 + u8 dataLen) with (Z.of_nat (List.length body) + 5 - 2) by lia.
    apply load_hi. reflexivity. }
  split.
  { replace (10 + u8 dataLen) with (Z.of_nat (List.length body) + 5 - 1) by lia.
    apply load_lo. reflexivity. }
  rewrite Hst.
  split.
  - rewrite <- Hlenn.
    change 3%nat with (List.length [xff; x00; xff]).
    now rewrite slice_app_at.
  - rewrite <- Hlen. apply checksum_spec; [reflexivity | lia].
Qed.

Lemma checksum_covers_lead_through_data_witness :
  exists pkt hi lo,
    pentairBuildPacket (repeat x00 16) ADDR_PUMP_1 ADDR_REMOTE_CONTROLLER CMD_MODE
      [MODE_EXT_PROG_1] x01 = Some (pkt, 11 + u8 x01)
    /\ load pkt 3 = Some xa5
    /\ load pkt (9 + u8 x01) = Some hi
    /\ load pkt (10 + u8 x01) = Some lo
    /\ be16 hi lo = to_u16 (byte_sum (slice pkt 3 (6 + len_of x01)))
    /\ pentairChecksum pkt (11 + u8 x01) = Some (be16 hi lo).
Proof.
  apply (checksum_covers_lead_through_data (repeat x00 16) ADDR_PUMP_1
           ADDR_REMOTE_CONTROLLER CMD_MODE [MODE_EXT_PROG_1] x01);
    vm_compute; lia.
Defined.

(** What a successful build leaves in the buffer, in one statement. *)
Lemma build_layout
    (buffer : list byte) (dst src cmd : byte) (data : list byte) (dataLen : byte) :
  (len_of dataLen <= List.length data)%nat ->
  (11 + len_of dataLen <= List.length buffer)%nat ->
  exists body hi lo rest,
    pentairBuildPacket buffer dst src cmd data dataLen
    = Some ([xff; x00; xff] ++ body ++ hi :: lo :: rest, 11 + u8 dataLen)
    /\ body = frame_body dst src cmd dataLen (firstn (len_of dataLen) data)
    /\ be16 hi lo = checksum_of body
    /\ Z.of_nat (List.length body) + 5 = 11 + u8 dataLen
    /\ rest = skipn (11 + len_of dataLen) buffer.
Proof.
  intros Hd Hb.
  pose proof (build_spec dst src cmd dataLen data buffer Hd Hb) as Hbuild.
  rewrite frame_layout in Hbuild.
  eexists _, _, _, _. split; [exact Hbuild|].
  split; [reflexivity|]. split; [apply stored_checksum|].
  split; [now apply body_length | reflexivity].
Qed.


Lemma len_of_len_byte (data : list byte) :
  (List.length data <= 255)%nat -> len_of (len_byte data) = List.length data.
Proof.
  intros H. unfold len_of, len_byte. rewrite u8_to_u8, Z.mod_small by lia. lia.
Qed.

(** C2. Decoding an encoding gives the inputs back: for every destination,
    source, command and data of at most 255 bytes, the buffer written by
    [pentairBuildPacket] passes [pentairVerifyChecksum], [pentairFindMessage]
    finds its marker at index 0, and version, destination, source, command,
    length and data read back from it are the inputs. *)
Theorem encode_decode_roundtrip
    (buffer : list byte) (dst src cmd : byte) (data : list byte) :
  (List.length data <= 255)%nat ->
  (11 + List.length data <= List.length buffer)%nat ->
  exists pkt total,
    pentairBuildPacket buffer dst src cmd data (len_byte data) = Some (pkt, total)
    /\ total = 11 + Z.of_nat (List.length data)
    /\ pentairVerifyChecksum pkt total = Some true
    /\ pentairFindMessage pkt total = Some 0
    /\ load pkt PKT_IDX_VER = Some PENTAIR_VERSION
    /\ load pkt PKT_IDX_DST = Some dst
    /\ load pkt PKT_IDX_SRC = Some src
    /\ load pkt PKT_IDX_CMD = Some cmd
    /\ load pkt PKT_IDX_LEN = Some (len_byte data)
    /\ u8 (len_byte data) = Z.of_nat (List.length data)
    /\ slice pkt (Z.to_nat PKT_IDX_DATA) (List.length data) = data.
Proof.
  intros Hd Hb.
  pose proof (len_of_len_byte data Hd) as Hn.
  assert (Hu : u8 (len_byte data) = Z.of_nat (List.length data))
    by (unfold len_byte; rewrite u8_to_u8, Z.mod_small by lia; reflexivity).
  destruct (build_layout buffer dst src cmd data (len_byte data))
    as (body & hi & lo & rest & Hbuild & Hbody & Hchk & Hlen & _);
    [lia | lia |].
  rewrite Hn, firstn_all in Hbody.
  eexists _, _. split; [exact Hbuild|].
  split; [lia|].
  split.
  { rewrite <- Hlen, verify_spec; [| reflexivity | lia |].
    - rewrite Hchk, Z.eqb_refl. reflexivity.
    - subst body. unfold frame_body. rewrite length_app. simpl. lia. }
  split.
  { subst body. unfold frame_body. simpl app.
    apply find_marker_at_0. unfold PENTAIR_MIN_PKT_LEN. lia. }
  subst body. unfold frame_body.
  repeat (split; [reflexivity|]).
  split; [exact Hu|].
  change (Z.to_nat PKT_IDX_DATA)
    with (List.length [xff; x00; xff; xa5; PENTAIR_VERSION; dst; src; cmd; len_byte data]).
  exact (slice_app_at [xff; x00; xff; xa5; PENTAIR_VERSION; dst; src; cmd; len_byte data]
           data (hi :: lo :: rest)).
Qed.

Lemma encode_decode_roundtrip_witness :
  exists pkt total,
    pentairBuildPacket (repeat x00 15) ADDR_PUMP_1 ADDR_REMOTE_CONTROLLER CMD_WRITE_REG
      [x02; xc4; x07; xd0] (len_byte [x02; xc4; x07; xd0]) = Some (pkt, total)
    /\ total = 11 + Z.of_nat (List.length [x02; xc4; x07; xd0])
    /\ pentairVerifyChecksum pkt total = Some true
    /\ pentairFindMessage pkt total = Some 0
    /\ load pkt PKT_IDX_VER = Some PENTAIR_VERSION
    /\ load pkt PKT_IDX_DST = Some ADDR_PUMP_1
    /\ load pkt PKT_IDX_SRC = Some ADDR_REMOTE_CONTROLLER
    /\ load pkt PKT_IDX_CMD = Some CMD_WRITE_REG
    /\ load pkt PKT_IDX_LEN = Some (len_byte [x02; xc4; x07; xd0])
    /\ u8 (len_byte [x02; xc4; x07; xd0]) = Z.of_nat (List.length [x02; xc4; x07; xd0])
    /\ slice pkt (Z.to_nat PKT_IDX_DATA) (List.length [x02; xc4; x07; xd0])
       = [x02; xc4; x07; xd0].
Proof.
  apply (encode_decode_roundtrip (repeat x00 15) ADDR_PUMP_1 ADDR_REMOTE_CONTROLLER
           CMD_WRITE_REG [x02; xc4; x07; xd0]); simpl; lia.
Defined.

(** C3. The status query (command [0x07], no data) to pump [0x60] from remote
    [0x20] is encoded as the eleven bytes [FF 00 FF A5 00 60 20 07 00 01 2C]:
    the checksum [0xA5+0x00+0x60+0x20+0x07+0x00 = 0x012C] is appended
    big-endian. *)
Theorem status_query_bytes (buffer data : list byte) :
  (11 <= List.length buffer)%nat ->
  pentairBuildPacket buffer ADDR_PUMP_1 ADDR_REMOTE_CONTROLLER CMD_STATUS data x00
  = Some ([xff; x00; xff; xa5; x00; x60; x20; x07; x00; x01; x2c] ++ skipn 11 buffer, 11)
  /\ u8 xa5 + u8 x00 + u8 x60 + u8 x20 + u8 x07 + u8 x00 = be16 x01 x2c.
Proof.
  intros Hb. split; [|reflexivity].
  rewrite build_spec; change (len_of x00) with 0%nat; [reflexivity | lia | lia].
Qed.

Lemma status_query_bytes_witness :
  pentairBuildPacket (repeat x00 11) ADDR_PUMP_1 ADDR_REMOTE_CONTROLLER CMD_STATUS [] x00
  = Some ([xff; x00; xff; xa5; x00; x60; x20; x07; x00; x01; x2c]
            ++ skipn 11 (repeat x00 11), 11)
  /\ u8 xa5 + u8 x00 + u8 x60 + u8 x20 + u8 x07 + u8 x00 = be16 x01 x2c.
Proof.
  apply (status_query_bytes (repeat x00 11) []). simpl. lia.
Defined.

(** C4 (as stated, refuted). In the encoded status query, replacing the first
    marker byte [0xFF] by [0x00] is not noticed by [pentairVerifyChecksum]:
    the three leading marker bytes are outside the summed span. *)
Lemma marker_corruption_not_detected :
  pentairBuildPacket (repeat x00 11) ADDR_PUMP_1 ADDR_REMOTE_CONTROLLER CMD_STATUS [] x00
  = Some (status_query_frame, 11)
  /\ load status_query_frame 0 = Some xff
  /\ store status_query_frame 0 x00
     = Some [x00; x00; xff; xa5; x00; x60; x20; x07; x00; x01; x2c]
  /\ pentairVerifyChecksum [x00; x00; xff; xa5; x00; x60; x20; x07; x00; x01; x2c] 11
     = Some true.
Proof. vm_compute. repeat split; reflexivity. Qed.

(** C4 (amended). For every encoded frame and every position from the lead
    byte [0xA5] (index 3) through the last data byte, replacing the byte at
    that position by a different value makes [pentairVerifyChecksum] return
    false on the corrupted buffer. *)
Theorem corruption_in_summed_span_detected
    (buffer : list byte) (dst src cmd : byte) (data : list byte) (dataLen : byte)
    (pkt : list byte) (total p : Z) (old new : byte) :
  (len_of dataLen <= List.length data)%nat ->
  (11 + len_of dataLen <= List.length buffer)%nat ->
  pentairBuildPacket buffer dst src cmd data dataLen = Some (pkt, total) ->
  PKT_IDX_LEAD <= p < total - 2 ->
  load pkt p = Some old ->
  new <> old ->
  exists pkt',
    store pkt p new = Some pkt'
    /\ pentairVerifyChecksum pkt' total = Some false.
Proof.
  intros Hd Hb Hbuild Hp Hold Hneq.
  pose proof (u8_range dataLen) as Hr.
  destruct (build_layout buffer dst src cmd data dataLen Hd Hb)
    as (body & hi & lo & rest & Hbuild' & Hbody & Hchk & Hlen & _).
  rewrite Hbuild in Hbuild'.
  assert (Hpkt : pkt = [xff; x00; xff] ++ body ++ hi :: lo :: rest) by congruence.
  assert (Htot : total = 11 + u8 dataLen) by congruence.
  clear Hbuild Hbuild'. subst pkt total.
  unfold PKT_IDX_LEAD in Hp.
  assert (Hmin : (6 <= List.length body)%nat)
    by (subst body; unfold frame_body; rewrite length_app; simpl; lia).
  (* the corrupted byte lies in the body *)
  set (j := (Z.to_nat p - 3)%nat).
  assert (Hj : nth_error body j = Some old).
  { unfold load in Hold.
    assert (Hp0 : (p <? 0) = false) by (apply Z.ltb_ge; lia).
    rewrite Hp0 in Hold.
    rewrite nth_error_app2 in Hold by (simpl; lia).
    rewrite nth_error_app1 in Hold by (simpl; lia). exact Hold. }
  destruct (nth_error_split body j Hj) as (b1 & b2 & Hsplit & Hb1).
  exists ([xff; x00; xff] ++ (b1 ++ new :: b2) ++ hi :: lo :: rest). split.
  - rewrite Hsplit.
    replace p with (Z.of_nat (List.length ([xff; x00; xff] ++ b1)))
      by (rewrite length_app, Hb1; unfold j; simpl List.length; lia).
    replace ([xff; x00; xff] ++ (b1 ++ old :: b2) ++ hi :: lo :: rest)
      with (([xff; x00; xff] ++ b1) ++ old :: (b2 ++ hi :: lo :: rest))
      by (rewrite <- !app_assoc; reflexivity).
    rewrite store_app_at. f_equal. rewrite <- !app_assoc. reflexivity.
  - assert (Hlen' : List.length (b1 ++ new :: b2) = List.length body)
      by (rewrite Hsplit, !length_app; reflexivity).
    rewrite <- Hlen, <- Hlen'.
    rewrite verify_spec; [| reflexivity | lia | lia].
    f_equal. apply Z.eqb_neq. rewrite Hchk, Hsplit.
    unfold checksum_of. rewrite !byte_sum_app. simpl byte_sum.
    rewrite !Z.add_assoc.
    apply u16_shift_neq; try apply u8_range.
    intros E. apply Hneq. now apply u8_inj.
Qed.

Lemma corruption_in_summed_span_detected_witness :
  exists pkt',
    store status_query_frame 5 x61 = Some pkt'
    /\ pentairVerifyChecksum pkt' 11 = Some false.
Proof.
  apply (corruption_in_summed_span_detected (repeat x00 11) ADDR_PUMP_1
           ADDR_REMOTE_CONTROLLER CMD_STATUS [] x00 status_query_frame 11 5 x60 x61).
  - vm_compute. lia.
  - vm_compute. lia.
  - reflexivity.
  - unfold PKT_IDX_LEAD. lia.
  - reflexivity.
  - discriminate.
Defined.

(** C6 (as stated, refuted). Data of 256 bytes is not rejected: the length
    reaches the builder as a [uint8_t], 0 for a caller's 256 and 255 at most,
    and the builder returns a frame in either case. *)
Lemma oversized_data_not_rejected :
  List.length (repeat xab 256) = 256%nat
  /\ to_u8 256 = x00
  /\ pentairBuildPacket (repeat x00 11) ADDR_PUMP_1 ADDR_REMOTE_CONTROLLER CMD_WRITE_REG
       (repeat xab 256) (to_u8 256)
     = Some ([xff; x00; xff; xa5; x00; x60; x20; x01; x00; x01; x26], 11)
  /\ exists pkt,
       pentairBuildPacket (repeat x00 266) ADDR_PUMP_1 ADDR_REMOTE_CONTROLLER CMD_WRITE_REG
         (repeat xab 256) xff = Some (pkt, 266).
Proof.
  split; [reflexivity|]. split; [reflexivity|]. split; [vm_compute; reflexivity|].
  eexists. vm_compute. reflexivity.
Qed.

(** C6 (amended). [pentairBuildPacket] has no error result. Its length
    parameter is an 8-bit value, so the payload it encodes never exceeds 255
    bytes; for every data array that holds at least [dataLen] bytes, also one
    of more than 255 bytes, and every buffer of at least [11 + dataLen] bytes
    it returns normally, having encoded exactly the first [dataLen] bytes. *)
Theorem build_always_succeeds
    (buffer : list byte) (dst src cmd : byte) (data : list byte) (dataLen : byte) :
  (len_of dataLen <= List.length data)%nat ->
  (11 + len_of dataLen <= List.length buffer)%nat ->
  u8 dataLen <= 255
  /\ exists pkt,
       pentairBuildPacket buffer dst src cmd data dataLen = Some (pkt, 11 + u8 dataLen)
       /\ slice pkt (Z.to_nat PKT_IDX_DATA) (len_of dataLen) = firstn (len_of dataLen) data.
Proof.
  intros Hd Hb. pose proof (u8_range dataLen) as Hr. split; [lia|].
  destruct (build_layout buffer dst src cmd data dataLen Hd Hb)
    as (body & hi & lo & rest & Hbuild & Hbody & _).
  eexists. split; [exact Hbuild|].
  subst body. unfold frame_body.
  set (payload := firstn (len_of dataLen) data).
  replace (len_of dataLen) with (List.length payload)
    by (apply firstn_length_le; exact Hd).
  change (Z.to_nat PKT_IDX_DATA)
    with (List.length [xff; x00; xff; xa5; PENTAIR_VERSION; dst; src; cmd; dataLen]).
  exact (slice_app_at [xff; x00; xff; xa5; PENTAIR_VERSION; dst; src; cmd; dataLen]
           payload (hi :: lo :: rest)).
Qed.

Lemma build_always_succeeds_witness :
  u8 xff <= 255
  /\ exists pkt,
       pentairBuildPacket (repeat x00 266) ADDR_PUMP_1 ADDR_REMOTE_CONTROLLER CMD_WRITE_REG
         (repeat xab 256) xff = Some (pkt, 11 + u8 xff)
       /\ slice pkt (Z.to_nat PKT_IDX_DATA) (len_of xff) = firstn (len_of xff) (repeat xab 256).
Proof.
  apply (build_always_succeeds (repeat x00 266) ADDR_PUMP_1 ADDR_REMOTE_CONTROLLER
           CMD_WRITE_REG (repeat xab 256) xff); vm_compute; lia.
Defined.

(** C7. An encoded frame is [4 + 5 + LEN + 2] bytes long, [LEN] being its
    length byte, hence at least 11 bytes: [pentairBuildPacket] returns
    [11 + dataLen], and [pentairPacketLength] returns 11 plus the byte at
    index 8 of the buffer it is given. *)
Theorem frame_total_length
    (buffer : list byte) (dst src cmd : byte) (data : list byte) (dataLen : byte)
    (packetStart : list byte) (len : byte) :
  (len_of dataLen <= List.length data)%nat ->
  (11 + len_of dataLen <= List.length buffer)%nat ->
  load packetStart PKT_IDX_LEN = Some len ->
  (exists pkt,
     pentairBuildPacket buffer dst src cmd data dataLen = Some (pkt, 11 + u8 dataLen)
     /\ load pkt PKT_IDX_LEN = Some dataLen
     /\ pentairPacketLength pkt = Some (11 + u8 dataLen))
  /\ 11 + u8 dataLen = 4 + 5 + u8 dataLen + 2
  /\ PENTAIR_MIN_PKT_LEN <= 11 + u8 dataLen
  /\ pentairPacketLength packetStart = Some (11 + u8 len).
Proof.
  intros Hd Hb Hl.
  assert (Hpl : forall p b, load p PKT_IDX_LEN = Some b ->
                            pentairPacketLength p = Some (11 + u8 b)).
  { intros p b H. unfold pentairPacketLength. rewrite H.
    pose proof (u8_range b). rewrite to_size_t_small by lia. f_equal. lia. }
  pose proof (u8_range dataLen) as Hr.
  split; [|split; [lia | split; [unfold PENTAIR_MIN_PKT_LEN; lia | now apply Hpl]]].
  destruct (build_layout buffer dst src cmd data dataLen Hd Hb)
    as (body & hi & lo & rest & Hbuild & Hbody & _).
  eexists. split; [exact Hbuild|].
  subst body. split; [reflexivity | apply Hpl; reflexivity].
Qed.

Lemma frame_total_length_witness :
  (exists pkt,
     pentairBuildPacket (repeat x00 11) ADDR_PUMP_1 ADDR_REMOTE_CONTROLLER CMD_STATUS [] x00
     = Some (pkt, 11 + u8 x00)
     /\ load pkt PKT_IDX_LEN = Some x00
     /\ pentairPacketLength pkt = Some (11 + u8 x00))
  /\ 11 + u8 x00 = 4 + 5 + u8 x00 + 2
  /\ PENTAIR_MIN_PKT_LEN <= 11 + u8 x00
  /\ pentairPacketLength [xff; x00; xff; xa5; x00; x20; x60; x07; x0f] = Some (11 + u8 x0f).
Proof.
  apply (frame_total_length (repeat x00 11) ADDR_PUMP_1 ADDR_REMOTE_CONTROLLER CMD_STATUS
           [] x00 [xff; x00; xff; xa5; x00; x20; x60; x07; x0f] x0f).
  - vm_compute. lia.
  - vm_compute. lia.
  - reflexivity.
Defined.

(** C9. A buffer of fewer than 11 bytes is rejected whatever it holds:
    [pentairFindMessage] returns -1, also when the marker [FF 00 FF A5] is in
    the buffer, and [pentairVerifyChecksum] returns false. *)
Theorem short_buffer_rejected (buffer : list byte) (length : Z) :
  length < PENTAIR_MIN_PKT_LEN ->
  pentairFindMessage buffer length = Some (-1)
  /\ pentairVerifyChecksum buffer length = Some false.
Proof.
  intros H. split; [now apply find_short | now apply verify_short].
Qed.

Lemma short_buffer_rejected_witness :
  pentairFindMessage [xff; x00; xff; xa5; x00; x60; x20; x07; x00; x01] 10 = Some (-1)
  /\ pentairVerifyChecksum [xff; x00; xff; xa5; x00; x60; x20; x07; x00; x01] 10
     = Some false.
Proof.
  apply (short_buffer_rejected [xff; x00; xff; xa5; x00; x60; x20; x07; x00; x01] 10).
  unfold PENTAIR_MIN_PKT_LEN. lia.
Defined.

(* ===================================================================== *)
(** ** Properties of the transport and of the application *)
(* ===================================================================== *)

(** C10. Before [RS485::begin] has been called, the public operations of the
    transport do nothing and report failure: [available] returns 0, [read]
    and [peek] return -1, [readBytes] and both [write] overloads return 0
    (and [flush] returns), without any call to the serial port, the pins or
    the clock. *)
Theorem uninitialized_transport_is_inert
    (this : RS485.t) (buffer data : option (list byte)) (length : Z) (b : byte) :
  RS485.initialized_ this = false ->
  RS485.available this = Ret 0
  /\ RS485.read this = Ret (-1)
  /\ RS485.peek this = Ret (-1)
  /\ RS485.readBytes this buffer length = Ret (buffer, 0)
  /\ RS485.write this data length = Ret 0
  /\ RS485.write_byte this b = Ret 0
  /\ RS485.flush this = Ret tt.
Proof.
  intros H.
  unfold RS485.available, RS485.read, RS485.peek, RS485.readBytes, RS485.write,
    RS485.write_byte, RS485.flush.
  rewrite H. cbn [negb]. repeat split; reflexivity.
Qed.

Lemma uninitialized_transport_is_inert_witness :
  let this := RS485.new RS485_SERIAL RS485_DE_RE_PIN RS485_TX_PIN RS485_RX_PIN in
  RS485.available this = Ret 0
  /\ RS485.read this = Ret (-1)
  /\ RS485.peek this = Ret (-1)
  /\ RS485.readBytes this (Some (repeat x00 256)) 256 = Ret (Some (repeat x00 256), 0)
  /\ RS485.write this (Some status_query_frame) 11 = Ret 0
  /\ RS485.write_byte this xff = Ret 0
  /\ RS485.flush this = Ret tt.
Proof.
  intros this.
  apply (uninitialized_transport_is_inert this (Some (repeat x00 256))
           (Some status_query_frame) 256 xff).
  reflexivity.
Defined.

(** One call of the program under [runs], with the answer the trace gives. *)
Ltac run_step :=
  eapply runs_vis; [ lazy; reflexivity | cbv beta ].






Lemma ignores_iff_empty (this : Application.t) (d : list byte) (length : Z) :
  ignores this (Some d) length <-> length = 0.
Proof.
  unfold ignores, Application.processReceivedPacket. split.
  - intros H. destruct (Z.eqb_spec length 0) as [E|E]; [exact E|exfalso].
    apply (f_equal observe) in H. revert H.
    unfold Application.sendRS485Data, RS485.write.
    rewrite (proj2 (Z.eqb_neq length 0) E).
    destruct (RS485_BUFFER_SIZE <? length).
    + cbn. discriminate.
    + destruct (RS485.initialized_ (Application.rs485_ this)).
      * cbn. discriminate.
      * destruct length; [congruence | cbn; discriminate | cbn; discriminate].
  - intros ->. reflexivity.
Qed.


(* ===================================================================== *)
(** ** Properties of the scheduler *)
(* ===================================================================== *)

Module SchedulerFacts.
Import Scheduler SchedulerScenario.

Section Ticks.

Variable cfg : Config.

Lemma expire_keeps_timer (now : Z) (s : t) :
  extProgram (fst (expire now s)) = extProgram s
  /\ reissued (snd (expire now s)) = [].
Proof.
  unfold expire. destruct (outstanding s) as [p|]; [|now split].
  destruct (deadline p <=? now); [|now split].
  destruct (retriesLeft p); now split.
Qed.

Lemma dispatch_keeps_timer (now : Z) (s : t) :
  extProgram (fst (dispatch cfg now s)) = extProgram s
  /\ reissued (snd (dispatch cfg now s)) = [].
Proof.
  unfold dispatch. destruct (outstanding s); [now split|].
  destruct (queue s); now split.
Qed.

Lemma enqueue_poll_keeps_timer (now : Z) (b : bool) (s : t) :
  extProgram (enqueue_poll cfg now b s) = extProgram s.
Proof.
  unfold enqueue_poll.
  destruct (negb b && (STATUS_QUERY_INTERVAL <=? now - lastBusActivity s)
            && negb (existsb (fun c => kind_eqb (kind c) QueryStatus) (queue s)));
    reflexivity.
Qed.

Lemma reissued_app (a b : list Action) : reissued (a ++ b) = reissued a ++ reissued b.
Proof.
  induction a as [|x a IH]; [reflexivity|].
  destruct x; simpl; now rewrite IH.
Qed.

(** The shape of one [tick] with respect to the repeat timer. *)
Lemma tick_timer (now : Z) (s : t) :
  extProgram (fst (tick cfg now s))
  = extProgram (fst (reissue now (fst (expire now (set_clock now s)))))
  /\ reissued (snd (tick cfg now s))
     = reissued (snd (reissue now (fst (expire now (set_clock now s))))).
Proof.
  unfold tick.
  pose proof (expire_keeps_timer now (set_clock now s)) as [_ Ha1].
  destruct (expire now (set_clock now s)) as [s1 a1]. cbn [fst snd] in *.
  destruct (reissue now s1) as [s2 a2]. cbn [fst snd].
  pose proof (dispatch_keeps_timer now (enqueue_poll cfg now (repeat_due now s1) s2))
    as [He3 Ha3].
  destruct (dispatch cfg now (enqueue_poll cfg now (repeat_due now s1) s2))
    as [s3 a3]. cbn [fst snd] in *.
  split.
  - now rewrite He3, enqueue_poll_keeps_timer.
  - rewrite !reissued_app, Ha1, Ha3. cbn. now rewrite app_nil_r.
Qed.

(** Before the timer is due a tick leaves it alone and re-issues nothing. *)
Lemma tick_before_due (now due : Z) (c : Command) (s : t) :
  extProgram s = Some (c, due) -> now < due ->
  extProgram (fst (tick cfg now s)) = Some (c, due)
  /\ reissued (snd (tick cfg now s)) = [].
Proof.
  intros He Hlt. destruct (tick_timer now s) as [-> ->].
  pose proof (expire_keeps_timer now (set_clock now s)) as [He1 _].
  cbn [set_clock extProgram] in He1. rewrite He in He1.
  unfold reissue. rewrite He1.
  destruct (Z.leb_spec due now); [lia|]. cbn [fst snd]. now split.
Qed.

(** When it is due a tick re-issues the command, once, and arms the timer
    for the next interval. *)
Lemma tick_at_due (now due : Z) (c : Command) (s : t) :
  extProgram s = Some (c, due) -> due <= now ->
  extProgram (fst (tick cfg now s)) = Some (c, now + EXT_PROG_REPEAT_INTERVAL)
  /\ reissued (snd (tick cfg now s)) = [c].
Proof.
  intros He Hle. destruct (tick_timer now s) as [-> ->].
  pose proof (expire_keeps_timer now (set_clock now s)) as [He1 _].
  cbn [set_clock extProgram] in He1. rewrite He in He1.
  unfold reissue. rewrite He1.
  destruct (Z.leb_spec due now); [|lia]. cbn. now split.
Qed.

Lemma run_ticks_app (ts1 ts2 : list Z) (s : t) :
  run_ticks cfg (ts1 ++ ts2) s
  = (fst (run_ticks cfg ts2 (fst (run_ticks cfg ts1 s))),
     snd (run_ticks cfg ts1 s) ++ snd (run_ticks cfg ts2 (fst (run_ticks cfg ts1 s)))).
Proof.
  revert s. induction ts1 as [|now ts1 IH]; intros s.
  - cbn. now destruct (run_ticks cfg ts2 s).
  - cbn [app run_ticks]. destruct (tick cfg now s) as [s1 a1].
    rewrite IH. destruct (run_ticks cfg ts1 s1) as [s2 a2]. cbn [fst snd].
    now rewrite app_assoc.
Qed.

Lemma run_ticks_before_due (ts : list Z) :
  forall (due : Z) (c : Command) (s : t),
    extProgram s = Some (c, due) ->
    Forall (fun now => now < due) ts ->
    extProgram (fst (run_ticks cfg ts s)) = Some (c, due)
    /\ reissued (snd (run_ticks cfg ts s)) = [].
Proof.
  induction ts as [|now ts IH]; intros due c s He Hall.
  - now split.
  - inversion Hall as [|? ? Hnow Hrest]; subst.
    destruct (tick_before_due now due c s He Hnow) as [He1 Ha1].
    cbn [run_ticks]. destruct (tick cfg now s) as [s1 a1]. cbn [fst snd] in *.
    destruct (IH due c s1 He1 Hrest) as [He2 Ha2].
    destruct (run_ticks cfg ts s1) as [s2 a2]. cbn [fst snd] in *.
    split; [exact He2|]. now rewrite reissued_app, Ha1, Ha2.
Qed.

End Ticks.





End SchedulerFacts.

(* ===================================================================== *)
(** ** Further properties of [PentairProtocol.h] *)
(* ===================================================================== *)

Section MarkerFacts.

Variable buffer : list byte.

(** A marker at [j], byte by byte. *)
Lemma marker_nth (j : nat) :
  has_marker_at buffer j
  <-> nth_error buffer j = Some xff
      /\ nth_error buffer (j + 1) = Some x00
      /\ nth_error buffer (j + 2) = Some xff
      /\ nth_error buffer (j + 3) = Some xa5.
Proof.
  unfold has_marker_at, slice, PENTAIR_PREAMBLE.
  replace (nth_error buffer j) with (nth_error buffer (j + 0)) by (f_equal; lia).
  rewrite <- !nth_error_skipn.
  destruct (skipn j buffer) as [|b0 [|b1 [|b2 [|b3 tl]]]]; simpl;
    split; intros H; try discriminate; try (destruct H as (H0 & H1 & H2 & H3); discriminate).
  - inversion H; subst. repeat split.
  - destruct H as (H0 & H1 & H2 & H3). congruence.
Qed.

(** The condition of the loop decides whether a marker starts at [j]. *)
Lemma marker_at_spec (j : nat) :
  (j + 4 <= List.length buffer)%nat ->
  (marker_at buffer (Z.of_nat j) = Some true /\ has_marker_at buffer j)
  \/ (marker_at buffer (Z.of_nat j) = Some false /\ ~ has_marker_at buffer j).
Proof.
  intros Hj. rewrite marker_nth. unfold marker_at, and_then, byte_is.
  replace (Z.of_nat j + 1) with (Z.of_nat (j + 1)) by lia.
  replace (Z.of_nat j + 2) with (Z.of_nat (j + 2)) by lia.
  replace (Z.of_nat j + 3) with (Z.of_nat (j + 3)) by lia.
  rewrite !load_of_nat.
  destruct (nth_error buffer j) as [b0|] eqn:E0;
    [|apply nth_error_None in E0; lia].
  destruct (nth_error buffer (j + 1)) as [b1|] eqn:E1;
    [|apply nth_error_None in E1; lia].
  destruct (nth_error buffer (j + 2)) as [b2|] eqn:E2;
    [|apply nth_error_None in E2; lia].
  destruct (nth_error buffer (j + 3)) as [b3|] eqn:E3;
    [|apply nth_error_None in E3; lia].
  destruct (Byte.eqb b0 xff) eqn:F0;
    [apply Byte.byte_dec_bl in F0
    |apply Byte.eqb_false in F0; right; split; [reflexivity | intros (H & _); congruence]].
  destruct (Byte.eqb b1 x00) eqn:F1;
    [apply Byte.byte_dec_bl in F1
    |apply Byte.eqb_false in F1; right; split; [reflexivity | intros (_ & H & _); congruence]].
  destruct (Byte.eqb b2 xff) eqn:F2;
    [apply Byte.byte_dec_bl in F2
    |apply Byte.eqb_false in F2; right; split; [reflexivity | intros (_ & _ & H & _); congruence]].
  destruct (Byte.eqb b3 xa5) eqn:F3;
    [apply Byte.byte_dec_bl in F3
    |apply Byte.eqb_false in F3; right; split; [reflexivity | intros (_ & _ & _ & H); congruence]].
  left. subst. repeat split.
Qed.

Lemma to_int_small (z : Z) : 0 <= z < 2 ^ 31 -> to_int z = z.
Proof.
  intros H. unfold to_int. rewrite Z.mod_small; lia.
Qed.

(** The loop returns the first index in its range at which a marker starts. *)
Lemma find_loop_spec (n : nat) :
  forall i : nat,
    (i + n + 3 <= List.length buffer)%nat ->
    Z.of_nat (i + n) < 2 ^ 31 ->
    exists r,
      find_loop n buffer (Z.of_nat i) = Some r
      /\ ((r = -1 /\ forall j, (i <= j < i + n)%nat -> ~ has_marker_at buffer j)
          \/ (Z.of_nat i <= r < Z.of_nat (i + n)
              /\ has_marker_at buffer (Z.to_nat r)
              /\ forall j, (i <= j)%nat -> Z.of_nat j < r -> ~ has_marker_at buffer j)).
Proof.
  induction n as [|n IH]; intros i Hlen Hint.
  - exists (-1). split; [reflexivity|]. left. split; [reflexivity|]. intros j Hj. lia.
  - simpl find_loop.
    destruct (marker_at_spec i ltac:(lia)) as [[-> Hm]|[-> Hm]].
    + exists (Z.of_nat i). split; [now rewrite to_int_small by lia|].
      right. split; [lia|]. split; [now rewrite Nat2Z.id|]. intros j Hj Hlt. lia.
    + replace (Z.of_nat i + 1) with (Z.of_nat (S i)) by lia.
      destruct (IH (S i) ltac:(lia) ltac:(lia)) as (r & Hr & Hcase).
      exists r. split; [exact Hr|].
      destruct Hcase as [[-> Hnone]|(Hrange & Hat & Hbefore)].
      * left. split; [reflexivity|]. intros j Hj.
        destruct (Nat.eq_dec j i) as [->|]; [exact Hm | apply Hnone; lia].
      * right. split; [lia|]. split; [exact Hat|]. intros j Hj Hlt.
        destruct (Nat.eq_dec j i) as [->|]; [exact Hm | apply Hbefore; lia].
Qed.

End MarkerFacts.

(** X1. On a buffer that holds [length] bytes, [pentairFindMessage] returns
    the index of the first marker [FF 00 FF A5] that starts at or before
    [length - 4], and -1 exactly when there is none. *)
Theorem find_returns_first_marker (buffer : list byte) (length : Z) :
  PENTAIR_MIN_PKT_LEN <= length < 2 ^ 31 ->
  length <= Z.of_nat (List.length buffer) ->
  exists r,
    pentairFindMessage buffer length = Some r
    /\ ((r = -1 /\ forall j, Z.of_nat j <= length - 4 -> ~ has_marker_at buffer j)
        \/ (0 <= r <= length - 4
            /\ has_marker_at buffer (Z.to_nat r)
            /\ forall j, Z.of_nat j < r -> ~ has_marker_at buffer j)).
Proof.
  intros Hlen Hbuf. unfold PENTAIR_MIN_PKT_LEN in Hlen. unfold pentairFindMessage.
  destruct (Z.ltb_spec length PENTAIR_MIN_PKT_LEN) as [Hlt|_];
    [unfold PENTAIR_MIN_PKT_LEN in Hlt; lia|].
  rewrite to_size_t_small by lia.
  destruct (find_loop_spec buffer (Z.to_nat (length - 4 + 1)) 0 ltac:(lia) ltac:(lia))
    as (r & Hr & Hcase).
  exists r. split; [exact Hr|].
  destruct Hcase as [[-> Hnone]|(Hrange & Hat & Hbefore)].
  - left. split; [reflexivity|]. intros j Hj. apply Hnone. lia.
  - right. split; [lia|]. split; [exact Hat|]. intros j Hj. apply Hbefore; lia.
Qed.

Lemma find_returns_first_marker_witness :
  exists r,
    pentairFindMessage ([x10; xff; x00] ++ status_query_frame) 14 = Some r
    /\ ((r = -1 /\ forall j, Z.of_nat j <= 14 - 4 ->
                     ~ has_marker_at ([x10; xff; x00] ++ status_query_frame) j)
        \/ (0 <= r <= 14 - 4
            /\ has_marker_at ([x10; xff; x00] ++ status_query_frame) (Z.to_nat r)
            /\ forall j, Z.of_nat j < r ->
                 ~ has_marker_at ([x10; xff; x00] ++ status_query_frame) j)).
Proof.
  apply (find_returns_first_marker ([x10; xff; x00] ++ status_query_frame) 14).
  - unfold PENTAIR_MIN_PKT_LEN. lia.
  - simpl. lia.
Defined.

(** A marker cannot start in the bytes before a frame and end inside the
    frame's own marker. *)
Lemma no_straddling_marker (garbage tl : list byte) (j : nat) :
  (j < List.length garbage)%nat ->
  (List.length garbage < j + 4)%nat ->
  ~ has_marker_at (garbage ++ xff :: x00 :: xff :: xa5 :: tl) j.
Proof.
  intros Hlo Hhi. rewrite marker_nth. intros (_ & H1 & _ & H3).
  set (frame := xff :: x00 :: xff :: xa5 :: tl) in *.
  assert (Hcase : (j + 1 = List.length garbage \/ j + 2 = List.length garbage
                   \/ j + 3 = List.length garbage)%nat) by lia.
  destruct Hcase as [E|[E|E]].
  - rewrite nth_error_app2 in H1 by lia.
    replace (j + 1 - List.length garbage)%nat with 0%nat in H1 by lia.
    discriminate.
  - rewrite nth_error_app2 in H3 by lia.
    replace (j + 3 - List.length garbage)%nat with 1%nat in H3 by lia.
    discriminate.
  - rewrite nth_error_app2 in H3 by lia.
    replace (j + 3 - List.length garbage)%nat with 0%nat in H3 by lia.
    discriminate.
Qed.

Lemma marker_in_prefix (garbage rest : list byte) (j : nat) :
  (j + 4 <= List.length garbage)%nat ->
  has_marker_at (garbage ++ rest) j -> has_marker_at garbage j.
Proof.
  intros Hj. rewrite !marker_nth. intros (H0 & H1 & H2 & H3).
  rewrite nth_error_app1 in H0, H1, H2, H3 by lia. tauto.
Qed.

(** X2. Resynchronisation: when the bytes in front of a frame hold no marker,
    [pentairFindMessage] returns the index at which the frame starts. *)
Theorem frame_found_behind_garbage (garbage tl : list byte) (length : Z) :
  (forall j, (j + 4 <= List.length garbage)%nat -> ~ has_marker_at garbage j) ->
  PENTAIR_MIN_PKT_LEN <= length < 2 ^ 31 ->
  Z.of_nat (List.length garbage) + 4 <= length ->
  length <= Z.of_nat (List.length (garbage ++ xff :: x00 :: xff :: xa5 :: tl)) ->
  pentairFindMessage (garbage ++ xff :: x00 :: xff :: xa5 :: tl) length
  = Some (Z.of_nat (List.length garbage)).
Proof.
  intros Hclean Hlen Hin Hbuf.
  set (buffer := garbage ++ xff :: x00 :: xff :: xa5 :: tl) in *.
  assert (Hframe : has_marker_at buffer (List.length garbage)).
  { unfold has_marker_at, slice, buffer.
    rewrite skipn_app, Nat.sub_diag, skipn_all. reflexivity. }
  destruct (find_returns_first_marker buffer length Hlen Hbuf) as (r & Hr & Hcase).
  rewrite Hr. f_equal.
  destruct Hcase as [[-> Hnone]|(Hrange & Hat & Hbefore)].
  - exfalso. apply (Hnone (List.length garbage)); [lia | exact Hframe].
  - destruct (Z.lt_trichotomy r (Z.of_nat (List.length garbage))) as [Hlt|[Heq|Hgt]].
    + exfalso.
      destruct (Nat.le_gt_cases (Z.to_nat r + 4) (List.length garbage)) as [Hins|Hstr].
      * apply (Hclean (Z.to_nat r) Hins).
        now apply (marker_in_prefix garbage (xff :: x00 :: xff :: xa5 :: tl)).
      * apply (no_straddling_marker garbage tl (Z.to_nat r)); [lia | lia | exact Hat].
    + exact Heq.
    + exfalso. apply (Hbefore (List.length garbage)); [lia | exact Hframe].
Qed.

Lemma frame_found_behind_garbage_witness :
  pentairFindMessage ([x10; xff; x00; xff; x00] ++ xff :: x00 :: xff :: xa5
                        :: [x00; x60; x20; x07; x00; x01; x2c]) 16
  = Some (Z.of_nat (List.length [x10; xff; x00; xff; x00])).
Proof.
  apply (frame_found_behind_garbage [x10; xff; x00; xff; x00]
           [x00; x60; x20; x07; x00; x01; x2c] 16).
  - intros [|[|j]] Hj; [discriminate | discriminate | simpl in Hj; lia].
  - unfold PENTAIR_MIN_PKT_LEN. lia.
  - simpl. lia.
  - simpl. lia.
Defined.

Lemma be16_inj (h1 l1 h2 l2 : byte) :
  be16 h1 l1 = be16 h2 l2 -> h1 = h2 /\ l1 = l2.
Proof.
  unfold be16. intros H.
  pose proof (u8_range h1). pose proof (u8_range l1).
  pose proof (u8_range h2). pose proof (u8_range l2).
  split; apply u8_inj; lia.
Qed.

(** X3. Replacing either of the two checksum bytes of an encoded frame by a
    different value makes [pentairVerifyChecksum] return false. *)
Theorem corrupted_checksum_detected
    (buffer : list byte) (dst src cmd : byte) (data : list byte) (dataLen : byte)
    (pkt : list byte) (total p : Z) (old new : byte) :
  (len_of dataLen <= List.length data)%nat ->
  (11 + len_of dataLen <= List.length buffer)%nat ->
  pentairBuildPacket buffer dst src cmd data dataLen = Some (pkt, total) ->
  total - 2 <= p < total ->
  load pkt p = Some old ->
  new <> old ->
  exists pkt',
    store pkt p new = Some pkt'
    /\ pentairVerifyChecksum pkt' total = Some false.
Proof.
  intros Hd Hb Hbuild Hp Hold Hneq.
  pose proof (u8_range dataLen) as Hr.
  destruct (build_layout buffer dst src cmd data dataLen Hd Hb)
    as (body & hi & lo & rest & Hbuild' & Hbody & Hchk & Hlen & _).
  rewrite Hbuild in Hbuild'.
  assert (Hpkt : pkt = [xff; x00; xff] ++ body ++ hi :: lo :: rest) by congruence.
  assert (Htot : total = 11 + u8 dataLen) by congruence.
  clear Hbuild Hbuild'. subst pkt total.
  assert (Hmin : (6 <= List.length body)%nat)
    by (subst body; unfold frame_body; rewrite length_app; simpl; lia).
  assert (Hcase : p = Z.of_nat (List.length body) + 5 - 2
                  \/ p = Z.of_nat (List.length body) + 5 - 1) by lia.
  destruct Hcase as [-> | ->].
  - rewrite load_hi in Hold by reflexivity. injection Hold as <-.
    exists ([xff; x00; xff] ++ body ++ new :: lo :: rest). split.
    + replace (Z.of_nat (List.length body) + 5 - 2)
        with (Z.of_nat (List.length ([xff; x00; xff] ++ body)))
        by (rewrite length_app; simpl List.length; lia).
      rewrite !app_assoc. apply store_app_at.
    + rewrite <- Hlen, verify_spec; [| reflexivity | lia | lia].
      f_equal. apply Z.eqb_neq. rewrite <- Hchk. intros E.
      apply be16_inj in E. destruct E as [E _]. congruence.
  - rewrite load_lo in Hold by reflexivity. injection Hold as <-.
    exists ([xff; x00; xff] ++ body ++ hi :: new :: rest). split.
    + replace (Z.of_nat (List.length body) + 5 - 1)
        with (Z.of_nat (List.length (([xff; x00; xff] ++ body) ++ [hi])))
        by (rewrite !length_app; simpl List.length; lia).
      replace ([xff; x00; xff] ++ body ++ hi :: lo :: rest)
        with ((([xff; x00; xff] ++ body) ++ [hi]) ++ lo :: rest)
        by (rewrite <- !app_assoc; reflexivity).
      rewrite store_app_at. f_equal. rewrite <- !app_assoc. reflexivity.
    + rewrite <- Hlen, verify_spec; [| reflexivity | lia | lia].
      f_equal. apply Z.eqb_neq. rewrite <- Hchk. intros E.
      apply be16_inj in E. destruct E as [_ E]. congruence.
Qed.

Lemma corrupted_checksum_detected_witness :
  exists pkt',
    store status_query_frame 10 x2d = Some pkt'
    /\ pentairVerifyChecksum pkt' 11 = Some false.
Proof.
  apply (corrupted_checksum_detected (repeat x00 11) ADDR_PUMP_1
           ADDR_REMOTE_CONTROLLER CMD_STATUS [] x00 status_query_frame 11 10 x2c x2d).
  - vm_compute. lia.
  - vm_compute. lia.
  - reflexivity.
  - lia.
  - reflexivity.
  - discriminate.
Defined.

Section BuildBounds.

Lemma store_some (buf buf' : list byte) (i : Z) (b : byte) :
  store buf i b = Some buf' ->
  0 <= i < Z.of_nat (List.length buf) /\ List.length buf' = List.length buf.
Proof.
  unfold store.
  destruct (Z.leb_spec 0 i) as [Hlo|Hlo]; [|discriminate].
  destruct (Z.ltb_spec i (Z.of_nat (List.length buf))) as [Hhi|Hhi]; [|discriminate].
  simpl andb. intros E.
  assert (Hb : buf' = firstn (Z.to_nat i) buf ++ b :: skipn (S (Z.to_nat i)) buf)
    by congruence.
  subst buf'. split; [lia|].
  rewrite length_app. cbn [List.length].
  rewrite firstn_length_le, length_skipn by lia. lia.
Qed.

Lemma put_some (b : byte) (buf buf' : list byte) (idx idx' : Z) :
  put b (buf, idx) = Some (buf', idx') ->
  0 <= idx < Z.of_nat (List.length buf)
  /\ List.length buf' = List.length buf
  /\ idx' = to_size_t (idx + 1).
Proof.
  unfold put. destruct (store buf idx b) as [x|] eqn:E; [|discriminate].
  intros H. assert (x = buf') by congruence. assert (to_size_t (idx + 1) = idx') by congruence.
  subst. destruct (store_some _ _ _ _ E) as [Hi Hl]. repeat split; assumption || lia.
Qed.

Lemma puts_some (l : list byte) :
  forall (buf buf' : list byte) (idx idx' : Z),
    0 <= idx <= Z.of_nat (List.length buf) ->
    idx + Z.of_nat (List.length l) < 2 ^ 32 ->
    puts l (buf, idx) = Some (buf', idx') ->
    idx + Z.of_nat (List.length l) <= Z.of_nat (List.length buf)
    /\ List.length buf' = List.length buf
    /\ idx' = idx + Z.of_nat (List.length l).
Proof.
  induction l as [|b l IH]; intros buf buf' idx idx' H0 Hfit H.
  - simpl in H. assert (buf = buf') by congruence. assert (idx = idx') by congruence.
    subst. simpl. repeat split; lia.
  - cbn [puts] in H. cbn [List.length] in *.
    destruct (put b (buf, idx)) as [[buf1 idx1]|] eqn:E; [|discriminate].
    destruct (put_some _ _ _ _ _ E) as (Hi & Hl & ->).
    rewrite to_size_t_small in H by lia.
    destruct (IH buf1 buf' (idx + 1) idx' ltac:(lia) ltac:(lia) H) as (Hb & Hl' & ->).
    repeat split; lia.
Qed.

Lemma copy_some (data : list byte) (n : nat) :
  forall (i : nat) (buf buf' : list byte) (idx idx' : Z),
    (i <= List.length data)%nat ->
    0 <= idx <= Z.of_nat (List.length buf) ->
    idx + Z.of_nat n < 2 ^ 32 ->
    for_loop n (Z.of_nat i) (copy_byte data) (buf, idx) = Some (buf', idx') ->
    (i + n <= List.length data)%nat
    /\ idx + Z.of_nat n <= Z.of_nat (List.length buf)
    /\ List.length buf' = List.length buf
    /\ idx' = idx + Z.of_nat n.
Proof.
  induction n as [|n IH]; intros i buf buf' idx idx' Hdi H0 Hfit H.
  - simpl in H. assert (buf = buf') by congruence. assert (idx = idx') by congruence.
    subst. repeat split; lia.
  - cbn [for_loop] in H. unfold copy_byte at 1 in H. rewrite load_of_nat in H.
    destruct (nth_error data i) as [d|] eqn:Ed; [|discriminate].
    assert (Hi : (i < List.length data)%nat)
      by (apply nth_error_Some; congruence).
    destruct (put d (buf, idx)) as [[buf1 idx1]|] eqn:E; [|discriminate].
    destruct (put_some _ _ _ _ _ E) as (Hidx & Hl & ->).
    rewrite to_size_t_small in H by lia.
    replace (Z.of_nat i + 1) with (Z.of_nat (S i)) in H by lia.
    destruct (IH (S i) buf1 buf' (idx + 1) idx' ltac:(lia) ltac:(lia) ltac:(lia) H)
      as (Hd & Hb & Hl' & ->).
    repeat split; lia.
Qed.

(** A build that returns had the bytes it needed. *)
Lemma build_some_sizes
    (buffer : list byte) (dst src cmd : byte) (data : list byte) (dataLen : byte)
    (res : list byte * Z) :
  pentairBuildPacket buffer dst src cmd data dataLen = Some res ->
  (len_of dataLen <= List.length data)%nat
  /\ (11 + len_of dataLen <= List.length buffer)%nat.
Proof.
  rewrite build_unfold. intros H.
  pose proof (u8_range dataLen) as Hr.
  assert (Hn : Z.of_nat (len_of dataLen) = u8 dataLen) by (unfold len_of; lia).
  set (hdr := [xff; x00; xff; xa5; PENTAIR_VERSION; dst; src; cmd; dataLen]) in *.
  destruct (puts hdr (buffer, 0)) as [[b1 i1]|] eqn:E1; [|discriminate].
  destruct (puts_some hdr buffer b1 0 i1) as (Hb1 & Hl1 & Hi1);
    [lia | simpl; lia | exact E1 |].
  change (Z.of_nat (List.length hdr)) with 9 in *. subst i1.
  unfold for_range at 1 in H. rewrite Z.sub_0_r in H. fold (len_of dataLen) in H.
  change 0 with (Z.of_nat 0) in H at 1.
  destruct (for_loop (len_of dataLen) (Z.of_nat 0) (copy_byte data) (b1, 0 + 9))
    as [[b2 i2]|] eqn:E2; [|discriminate].
  destruct (copy_some data (len_of dataLen) 0 b1 b2 (0 + 9) i2) as (Hd & Hb2 & Hl2 & Hi2);
    [lia | lia | lia | exact E2 |].
  subst i2. cbn [fst snd] in H.
  destruct (for_range PKT_IDX_LEAD (0 + 9 + Z.of_nat (len_of dataLen)) (add_byte b2) 0)
    as [c|]; [|discriminate].
  destruct (puts_some (checksum_bytes c) b2 (fst res) (0 + 9 + Z.of_nat (len_of dataLen))
              (snd res)) as (Hb3 & _);
    [lia | unfold checksum_bytes; cbn [List.length]; lia | now destruct res |].
  unfold checksum_bytes in Hb3. cbn [List.length] in Hb3. split; lia.
Qed.

End BuildBounds.

(** X4. [pentairBuildPacket] stays within its arrays exactly when the buffer
    has [11 + dataLen] bytes and the data [dataLen] bytes, the minimum its
    header comment asks for; with less it reads or writes out of bounds. *)
Theorem build_defined_iff_sizes
    (buffer : list byte) (dst src cmd : byte) (data : list byte) (dataLen : byte) :
  pentairBuildPacket buffer dst src cmd data dataLen = None
  <-> (List.length buffer < 11 + len_of dataLen \/ List.length data < len_of dataLen)%nat.
Proof.
  split.
  - intros Hnone.
    destruct (Nat.lt_ge_cases (List.length buffer) (11 + len_of dataLen)) as [|Hb];
      [now left|].
    destruct (Nat.lt_ge_cases (List.length data) (len_of dataLen)) as [|Hd];
      [now right|].
    rewrite build_spec in Hnone by assumption. discriminate.
  - intros Hsmall.
    destruct (pentairBuildPacket buffer dst src cmd data dataLen) as [res|] eqn:E;
      [|reflexivity].
    destruct (build_some_sizes _ _ _ _ _ _ _ E). lia.
Qed.

(** X5. A build that returns has written the first [11 + dataLen] bytes of
    the buffer only: the buffer keeps its size and every byte behind the
    frame. *)
Theorem build_leaves_rest_of_buffer
    (buffer : list byte) (dst src cmd : byte) (data : list byte) (dataLen : byte)
    (pkt : list byte) (total : Z) :
  pentairBuildPacket buffer dst src cmd data dataLen = Some (pkt, total) ->
  total = 11 + u8 dataLen
  /\ List.length pkt = List.length buffer
  /\ skipn (Z.to_nat total) pkt = skipn (Z.to_nat total) buffer.
Proof.
  intros H. pose proof (u8_range dataLen) as Hr.
  destruct (build_some_sizes _ _ _ _ _ _ _ H) as [Hd Hb].
  rewrite build_spec in H by assumption.
  assert (Hpkt : pkt = frame_bytes dst src cmd dataLen (firstn (len_of dataLen) data)
                         ++ skipn (11 + len_of dataLen) buffer) by congruence.
  assert (Htot : total = 11 + u8 dataLen) by congruence.
  assert (Hfl : List.length (frame_bytes dst src cmd dataLen (firstn (len_of dataLen) data))
                = (11 + len_of dataLen)%nat).
  { unfold frame_bytes, frame_body, checksum_bytes.
    rewrite !length_app, firstn_length_le by exact Hd. simpl. lia. }
  assert (Hnat : Z.to_nat total = (11 + len_of dataLen)%nat) by (unfold len_of; lia).
  split; [exact Htot|]. rewrite Hnat, Hpkt. split.
  - rewrite length_app, Hfl, length_skipn. lia.
  - rewrite <- Hfl at 1. rewrite skipn_app, Nat.sub_diag, skipn_all. reflexivity.
Qed.

Lemma build_leaves_rest_of_buffer_witness :
  11 = 11 + u8 x00
  /\ List.length (status_query_frame ++ [xaa; xbb])
     = List.length (repeat x00 11 ++ [xaa; xbb])
  /\ skipn (Z.to_nat 11) (status_query_frame ++ [xaa; xbb])
     = skipn (Z.to_nat 11) (repeat x00 11 ++ [xaa; xbb]).
Proof.
  apply (build_leaves_rest_of_buffer (repeat x00 11 ++ [xaa; xbb]) ADDR_PUMP_1
           ADDR_REMOTE_CONTROLLER CMD_STATUS [] x00
           (status_query_frame ++ [xaa; xbb]) 11).
  vm_compute. reflexivity.
Defined.

Lemma byte_sum_le (l : list byte) : byte_sum l <= 255 * Z.of_nat (List.length l).
Proof.
  induction l as [|b l IH]; [simpl; lia|].
  cbn [byte_sum fold_right List.length]. fold (byte_sum l).
  pose proof (u8_range b). lia.
Qed.

(** X6. For a payload of at most 252 bytes the 16-bit checksum cannot wrap:
    the two bytes behind the data hold the exact arithmetic sum of the bytes
    from the lead byte [0xA5] through the last data byte. *)
Theorem checksum_exact_up_to_252_bytes
    (buffer : list byte) (dst src cmd : byte) (data : list byte) (dataLen : byte) :
  (len_of dataLen <= List.length data)%nat ->
  (11 + len_of dataLen <= List.length buffer)%nat ->
  u8 dataLen <= 252 ->
  exists pkt hi lo,
    pentairBuildPacket buffer dst src cmd data dataLen = Some (pkt, 11 + u8 dataLen)
    /\ load pkt (9 + u8 dataLen) = Some hi
    /\ load pkt (10 + u8 dataLen) = Some lo
    /\ be16 hi lo = byte_sum (slice pkt 3 (6 + len_of dataLen)).
Proof.
  intros Hd Hb Hsmall.
  pose proof (u8_range dataLen) as Hr.
  pose proof (u8_range dst) as Hdst. pose proof (u8_range src) as Hsrc.
  pose proof (u8_range cmd) as Hcmd.
  destruct (build_layout buffer dst src cmd data dataLen Hd Hb)
    as (body & hi & lo & rest & Hbuild & Hbody & Hchk & Hlen & _).
  assert (Hlenn : List.length body = (6 + len_of dataLen)%nat)
    by (subst body; now apply body_length_nat).
  exists ([xff; x00; xff] ++ body ++ hi :: lo :: rest), hi, lo.
  split; [exact Hbuild|]. split.
  { replace (9 + u8 dataLen) with (Z.of_nat (List.length body) + 5 - 2) by lia.
    apply load_hi. reflexivity. }
  split.
  { replace (10 + u8 dataLen) with (Z.of_nat (List.length body) + 5 - 1) by lia.
    apply load_lo. reflexivity. }
  rewrite <- Hlenn.
  change 3%nat with (List.length [xff; x00; xff]).
  rewrite slice_app_at, Hchk. unfold checksum_of. apply to_u16_small.
  split; [apply byte_sum_nonneg|].
  subst body. unfold frame_body. rewrite byte_sum_app.
  pose proof (byte_sum_le (firstn (len_of dataLen) data)) as Hp.
  rewrite firstn_length_le in Hp by exact Hd.
  assert (Hn : Z.of_nat (len_of dataLen) = u8 dataLen) by (unfold len_of; lia).
  cbn [byte_sum fold_right]. change (u8 xa5) with 165. change (u8 PENTAIR_VERSION) with 0.
  fold (byte_sum (firstn (len_of dataLen) data)). lia.
Qed.

Lemma checksum_exact_up_to_252_bytes_witness :
  exists pkt hi lo,
    pentairBuildPacket (repeat x00 263) xff xff xff (repeat xff 252) xfc
    = Some (pkt, 11 + u8 xfc)
    /\ load pkt (9 + u8 xfc) = Some hi
    /\ load pkt (10 + u8 xfc) = Some lo
    /\ be16 hi lo = byte_sum (slice pkt 3 (6 + len_of xfc)).
Proof.
  apply (checksum_exact_up_to_252_bytes (repeat x00 263) xff xff xff (repeat xff 252) xfc);
    vm_compute; try lia; discriminate.
Defined.

(** X7. On any buffer that holds [length >= 11] bytes, [pentairChecksum] is
    the sum modulo 2^16 of the bytes at indices [3 .. length - 3], and
    [pentairVerifyChecksum] returns true exactly when that sum equals the
    big-endian value of the bytes at [length - 2] and [length - 1]; the first
    three bytes and everything from index [length] on play no part. *)
Theorem verify_accepts_exactly (packet : list byte) (length : Z) :
  PENTAIR_MIN_PKT_LEN <= length < 2 ^ 32 ->
  length <= Z.of_nat (List.length packet) ->
  exists hi lo,
    load packet (length - 2) = Some hi
    /\ load packet (length - 1) = Some lo
    /\ pentairChecksum packet length
       = Some (to_u16 (byte_sum (slice packet 3 (Z.to_nat length - 5))))
    /\ pentairVerifyChecksum packet length
       = Some (to_u16 (byte_sum (slice packet 3 (Z.to_nat length - 5))) =? be16 hi lo).
Proof.
  intros Hlen Hbuf. unfold PENTAIR_MIN_PKT_LEN in Hlen.
  destruct (split_at packet 3 ltac:(lia)) as (pre & p1 & -> & Hpre).
  rewrite length_app in Hbuf.
  destruct (split_at p1 (Z.to_nat length - 5) ltac:(lia)) as (body & p2 & -> & Hbody).
  rewrite length_app in Hbuf.
  destruct p2 as [|hi [|lo rest]]; [simpl in Hbuf; lia | simpl in Hbuf; lia |].
  assert (Htot : length = Z.of_nat (List.length body) + 5) by lia.
  exists hi, lo. rewrite Htot at 1 2 3 5.
  rewrite load_hi, load_lo by exact Hpre.
  rewrite checksum_spec by (exact Hpre || lia).
  rewrite verify_spec by (exact Hpre || lia).
  rewrite <- Hbody, <- Hpre, slice_app_at.
  repeat split; reflexivity.
Qed.

Lemma verify_accepts_exactly_witness :
  exists hi lo,
    load (status_query_frame ++ [xff; x00]) (11 - 2) = Some hi
    /\ load (status_query_frame ++ [xff; x00]) (11 - 1) = Some lo
    /\ pentairChecksum (status_query_frame ++ [xff; x00]) 11
       = Some (to_u16 (byte_sum (slice (status_query_frame ++ [xff; x00]) 3
                                   (Z.to_nat 11 - 5))))
    /\ pentairVerifyChecksum (status_query_frame ++ [xff; x00]) 11
       = Some (to_u16 (byte_sum (slice (status_query_frame ++ [xff; x00]) 3
                                   (Z.to_nat 11 - 5))) =? be16 hi lo).
Proof.
  apply (verify_accepts_exactly (status_query_frame ++ [xff; x00]) 11).
  - unfold PENTAIR_MIN_PKT_LEN. lia.
  - simpl. lia.
Defined.

(** The frame a successful build has put at the start of its buffer. *)
Lemma built_frame
    (buffer : list byte) (dst src cmd : byte) (data : list byte) (dataLen : byte)
    (pkt : list byte) (total : Z) :
  pentairBuildPacket buffer dst src cmd data dataLen = Some (pkt, total) ->
  exists body hi lo,
    firstn (Z.to_nat total) pkt = [xff; x00; xff] ++ body ++ [hi; lo]
    /\ total = Z.of_nat (List.length body) + 5
    /\ (6 <= List.length body)%nat
    /\ total < 2 ^ 32
    /\ nth_error body 5 = Some dataLen
    /\ u8 dataLen = Z.of_nat (List.length body) - 6
    /\ be16 hi lo = checksum_of body.
Proof.
  intros H. pose proof (u8_range dataLen) as Hr.
  destruct (build_some_sizes _ _ _ _ _ _ _ H) as [Hd Hb].
  destruct (build_layout buffer dst src cmd data dataLen Hd Hb)
    as (body & hi & lo & rest & Hbuild & Hbody & Hchk & Hlen & _).
  rewrite H in Hbuild.
  assert (Hpkt : pkt = [xff; x00; xff] ++ body ++ hi :: lo :: rest) by congruence.
  assert (Htot : total = 11 + u8 dataLen) by congruence.
  exists body, hi, lo.
  assert (Hlenn : List.length body = (6 + len_of dataLen)%nat)
    by (subst body; now apply body_length_nat).
  assert (Hn : Z.of_nat (len_of dataLen) = u8 dataLen) by (unfold len_of; lia).
  split; [|split; [lia|split; [lia|split; [lia|split; [|split; [lia | exact Hchk]]]]]].
  - rewrite Hpkt.
    replace ([xff; x00; xff] ++ body ++ hi :: lo :: rest)
      with (([xff; x00; xff] ++ body ++ [hi; lo]) ++ rest)
      by (rewrite <- !app_assoc; reflexivity).
    replace (Z.to_nat total) with (List.length ([xff; x00; xff] ++ body ++ [hi; lo]))
      by (rewrite !length_app; simpl List.length; lia).
    rewrite firstn_app, Nat.sub_diag, firstn_all. simpl firstn. apply app_nil_r.
  - subst body. reflexivity.
Qed.

(** X17. Frames laid back to back can be walked: in a stream that holds one
    encoded frame directly followed by another, [pentairPacketLength] gives
    the length of the first, the first verifies with that length whatever
    follows it, and the bytes behind it start with the second frame, which
    is found at index 0 and verifies in turn. *)
Theorem back_to_back_frames
    (buf1 buf2 : list byte) (dst1 src1 cmd1 dst2 src2 cmd2 : byte)
    (data1 data2 : list byte) (len1 len2 : byte)
    (pkt1 pkt2 rest : list byte) (total1 total2 : Z) :
  pentairBuildPacket buf1 dst1 src1 cmd1 data1 len1 = Some (pkt1, total1) ->
  pentairBuildPacket buf2 dst2 src2 cmd2 data2 len2 = Some (pkt2, total2) ->
  let stream := firstn (Z.to_nat total1) pkt1 ++ firstn (Z.to_nat total2) pkt2 ++ rest in
  pentairPacketLength stream = Some total1
  /\ pentairVerifyChecksum stream total1 = Some true
  /\ pentairFindMessage (skipn (Z.to_nat total1) stream) total2 = Some 0
  /\ pentairPacketLength (skipn (Z.to_nat total1) stream) = Some total2
  /\ pentairVerifyChecksum (skipn (Z.to_nat total1) stream) total2 = Some true.
Proof.
  intros H1 H2 stream.
  destruct (built_frame _ _ _ _ _ _ _ _ H1)
    as (body1 & hi1 & lo1 & Hf1 & Ht1 & Hm1 & Hlt1 & Hl1 & Hu1 & Hc1).
  destruct (built_frame _ _ _ _ _ _ _ _ H2)
    as (body2 & hi2 & lo2 & Hf2 & Ht2 & Hm2 & Hlt2 & Hl2 & Hu2 & Hc2).
  assert (Hskip : skipn (Z.to_nat total1) stream
                  = [xff; x00; xff] ++ body2 ++ hi2 :: lo2 :: rest).
  { unfold stream. rewrite Hf1, Hf2.
    replace (Z.to_nat total1) with (List.length ([xff; x00; xff] ++ body1 ++ [hi1; lo1]))
      by (rewrite !length_app; simpl List.length; lia).
    rewrite skipn_app, Nat.sub_diag, skipn_all. cbn [app skipn].
    rewrite <- !app_assoc. reflexivity. }
  assert (Hstream : stream = [xff; x00; xff] ++ body1
                               ++ hi1 :: lo1 :: (firstn (Z.to_nat total2) pkt2 ++ rest)).
  { unfold stream. rewrite Hf1, <- !app_assoc. reflexivity. }
  assert (Hpl : forall body tl len,
             nth_error body 5 = Some len ->
             pentairPacketLength ([xff; x00; xff] ++ body ++ tl) = Some (11 + u8 len)).
  { intros body tl len Hn. unfold pentairPacketLength, PKT_IDX_LEN.
    change 8 with (Z.of_nat (3 + 5)). rewrite load_of_nat.
    change (nth_error ([xff; x00; xff] ++ body ++ tl) (3 + 5))
      with (nth_error (body ++ tl) 5).
    rewrite nth_error_app1 by (apply nth_error_Some; congruence).
    rewrite Hn. pose proof (u8_range len). rewrite to_size_t_small by lia.
    f_equal. lia. }
  rewrite Hskip, Hstream. repeat split.
  - rewrite (Hpl body1 _ len1 Hl1). f_equal. lia.
  - rewrite Ht1, verify_spec by (reflexivity || lia).
    now rewrite Hc1, Z.eqb_refl.
  - destruct body2 as [|b0 body2']; [simpl in Hm2; lia|].
    assert (b0 = xa5).
    { destruct (build_some_sizes _ _ _ _ _ _ _ H2) as [Hd Hb].
      destruct (build_layout buf2 dst2 src2 cmd2 data2 len2 Hd Hb)
        as (body & hi & lo & rest' & Hbuild & Hbody & _).
      rewrite H2 in Hbuild.
      assert (Hpkt : pkt2 = [xff; x00; xff] ++ body ++ hi :: lo :: rest') by congruence.
      rewrite Hpkt in Hf2. subst body. unfold frame_body in Hf2.
      replace (Z.to_nat total2) with (S (S (S (S (Z.to_nat total2 - 4))))) in Hf2 by lia.
      cbn [app firstn] in Hf2. congruence. }
    subst b0. cbn [app]. apply find_marker_at_0.
    unfold PENTAIR_MIN_PKT_LEN. lia.
  - rewrite (Hpl body2 _ len2 Hl2). f_equal. lia.
  - rewrite Ht2, verify_spec by (reflexivity || lia).
    now rewrite Hc2, Z.eqb_refl.
Qed.

Lemma back_to_back_frames_witness :
  let stream :=
    firstn (Z.to_nat 11) status_query_frame ++ firstn (Z.to_nat 11) foreign_frame ++ [x00] in
  pentairPacketLength stream = Some 11
  /\ pentairVerifyChecksum stream 11 = Some true
  /\ pentairFindMessage (skipn (Z.to_nat 11) stream) 11 = Some 0
  /\ pentairPacketLength (skipn (Z.to_nat 11) stream) = Some 11
  /\ pentairVerifyChecksum (skipn (Z.to_nat 11) stream) 11 = Some true.
Proof.
  apply (back_to_back_frames (repeat x00 11) (repeat x00 11)
           ADDR_PUMP_1 ADDR_REMOTE_CONTROLLER CMD_STATUS
           ADDR_MAIN_CONTROLLER_1 ADDR_MAIN_CONTROLLER_1 CMD_STATUS
           [] [] x00 x00 status_query_frame foreign_frame [x00] 11 11);
    vm_compute; reflexivity.
Defined.

(* ===================================================================== *)
(** ** Reasoning about the runs of a program *)
(* ===================================================================== *)

Section RunRules.

Lemma runs_observe {R : Type} (t t' : itree hwE R) (tr : list answered) (r : R) :
  observe t = observe t' -> runs t tr r -> runs t' tr r.
Proof.
  intros Ho H. destruct H as [t r Hr | t u tr r Hu Hrun | t X e k x tr r Hv Hrun].
  - apply runs_ret. congruence.
  - eapply runs_tau; [|exact Hrun]. congruence.
  - eapply runs_vis; [|exact Hrun]. congruence.
Qed.

Lemma runs_ret_inv {R : Type} (t : itree hwE R) (x r : R) (tr : list answered) :
  observe t = RetF x -> runs t tr r -> tr = [] /\ r = x.
Proof.
  intros Ho H. destruct H as [t r Hr | t u tr r Hu Hrun | t X e k x' tr r Hv Hrun];
    rewrite Ho in *; try discriminate.
  split; [reflexivity | congruence].
Qed.

Lemma runs_tau_inv {R : Type} (t u : itree hwE R) (r : R) (tr : list answered) :
  observe t = TauF u -> runs t tr r -> runs u tr r.
Proof.
  intros Ho H. destruct H as [t r Hr | t u' tr r Hu Hrun | t X e k x' tr r Hv Hrun];
    rewrite Ho in *; try discriminate.
  congruence.
Qed.

Lemma runs_vis_inv {R X : Type} (t : itree hwE R) (e : hwE X) (k : X -> itree hwE R)
    (r : R) (tr : list answered) :
  observe t = VisF e k -> runs t tr r ->
  exists x tr', tr = Ans e x :: tr' /\ runs (k x) tr' r.
Proof.
  intros Ho H. destruct H as [t r Hr | t u' tr r Hu Hrun | t X' e' k' x' tr r Hv Hrun];
    rewrite Ho in *; try discriminate.
  inversion Hv as [[HX He Hk]]. subst X'.
  apply inj_pair2 in He, Hk. subst e' k'.
  exists x', tr. split; [reflexivity | exact Hrun].
Qed.

Lemma runs_bind {R S : Type} (t : itree hwE R) (k : R -> itree hwE S)
    (tr1 tr2 : list answered) (x : R) (r : S) :
  runs t tr1 x -> runs (k x) tr2 r -> runs (ITree.bind t k) (tr1 ++ tr2) r.
Proof.
  intros H1 H2.
  induction H1 as [t x Hr | t u tr x Hu Hrun IH | t X e h a tr x Hv Hrun IH].
  - apply (runs_observe (k x)); [|exact H2].
    rewrite observe_bind, Hr. reflexivity.
  - eapply runs_tau; [|exact (IH H2)]. rewrite observe_bind, Hu. reflexivity.
  - simpl app.
    apply (runs_vis (ITree.bind t k) X e (fun y => ITree.bind (h y) k) a (tr ++ tr2) r);
      [|exact (IH H2)].
    rewrite observe_bind, Hv. reflexivity.
Qed.

Lemma runs_bind_inv {R S : Type} (k : R -> itree hwE S) (u : itree hwE S)
    (tr : list answered) (r : S) :
  runs u tr r ->
  forall t : itree hwE R,
    observe u = observe (ITree.bind t k) ->
    exists tr1 tr2 x, runs t tr1 x /\ runs (k x) tr2 r /\ tr = tr1 ++ tr2.
Proof.
  intros H.
  induction H as [u r Hr | u u' tr r Hu Hrun IH | u X e h a tr r Hv Hrun IH];
    intros t Ho; rewrite observe_bind in Ho;
    destruct (observe t) as [x | t' | Y e' h'] eqn:Et; cbn in Ho.
  - exists [], [], x. split; [now apply runs_ret|]. split; [|reflexivity].
    apply runs_ret. congruence.
  - congruence.
  - congruence.
  - exists [], tr, x. split; [now apply runs_ret|]. split; [|reflexivity].
    eapply runs_tau; [|exact Hrun]. congruence.
  - assert (u' = ITree.bind t' k) by congruence. subst u'.
    destruct (IH t' eq_refl) as (tr1 & tr2 & x & H1 & H2 & ->).
    exists tr1, tr2, x. split; [|split; [exact H2 | reflexivity]].
    eapply runs_tau; [exact Et | exact H1].
  - congruence.
  - exists [], (Ans e a :: tr), x. split; [now apply runs_ret|]. split; [|reflexivity].
    eapply runs_vis; [|exact Hrun]. congruence.
  - congruence.
  - rewrite Hv in Ho. inversion Ho as [[HX He Hk]]. subst Y.
    apply inj_pair2 in He, Hk. subst e'.
    assert (Hh : h a = ITree.bind (h' a) k) by (rewrite Hk; reflexivity).
    destruct (IH (h' a) ltac:(rewrite Hh; reflexivity)) as (tr1 & tr2 & x & H1 & H2 & ->).
    exists (Ans e a :: tr1), tr2, x. split; [|split; [exact H2 | reflexivity]].
    eapply runs_vis; [exact Et | exact H1].
Qed.

End RunRules.

Section PostRules.

Lemma post_ret {R : Type} (x : R) (Q : list answered -> R -> Prop) :
  Q [] x -> post (Ret x) Q.
Proof.
  intros HQ tr r H. destruct (runs_ret_inv (Ret x) x r tr eq_refl H) as [-> ->].
  exact HQ.
Qed.

Lemma post_trigger {X : Type} (e : hwE X) (Q : list answered -> X -> Prop) :
  (forall x, Q [Ans e x] x) -> post (ITree.trigger e) Q.
Proof.
  intros HQ tr r H.
  destruct (runs_vis_inv (ITree.trigger e) e (fun x => Ret x) r tr eq_refl H)
    as (x & tr' & -> & H').
  destruct (runs_ret_inv (Ret x) x r tr' eq_refl H') as [-> ->]. apply HQ.
Qed.

Lemma post_bind {R S : Type} (t : itree hwE R) (k : R -> itree hwE S)
    (Q1 : list answered -> R -> Prop) (Q : list answered -> S -> Prop) :
  post t Q1 ->
  (forall tr1 x, Q1 tr1 x -> post (k x) (fun tr2 r => Q (tr1 ++ tr2) r)) ->
  post (ITree.bind t k) Q.
Proof.
  intros Ht Hk tr r H.
  destruct (runs_bind_inv k _ tr r H t eq_refl) as (tr1 & tr2 & x & H1 & H2 & ->).
  exact (Hk tr1 x (Ht tr1 x H1) tr2 r H2).
Qed.

Lemma post_call {X R : Type} (e : hwE X) (k : X -> itree hwE R)
    (Q : list answered -> R -> Prop) :
  (forall x, post (k x) (fun tr r => Q (Ans e x :: tr) r)) ->
  post (ITree.bind (ITree.trigger e) k) Q.
Proof.
  intros Hk. apply (post_bind _ _ (fun tr x => tr = [Ans e x])).
  - apply post_trigger. reflexivity.
  - intros tr1 x ->. exact (Hk x).
Qed.

Lemma post_ret_bind {R S : Type} (x : R) (k : R -> itree hwE S)
    (Q : list answered -> S -> Prop) :
  post (k x) Q -> post (ITree.bind (Ret x) k) Q.
Proof.
  intros Hk. apply (post_bind _ _ (fun tr y => tr = [] /\ y = x)).
  - apply post_ret. split; reflexivity.
  - intros tr1 y [-> ->]. exact Hk.
Qed.

Lemma post_assoc {R S T : Type} (t : itree hwE R) (k1 : R -> itree hwE S)
    (k2 : S -> itree hwE T) (Q : list answered -> T -> Prop) :
  post (ITree.bind t (fun x => ITree.bind (k1 x) k2)) Q ->
  post (ITree.bind (ITree.bind t k1) k2) Q.
Proof.
  intros H tr r Hr.
  destruct (runs_bind_inv k2 _ tr r Hr (ITree.bind t k1) eq_refl)
    as (tr12 & tr3 & y & H12 & H3 & ->).
  destruct (runs_bind_inv k1 _ tr12 y H12 t eq_refl) as (tr1 & tr2 & x & H1 & H2 & ->).
  rewrite <- app_assoc. apply H.
  apply (runs_bind t _ tr1 (tr2 ++ tr3) x r H1).
  exact (runs_bind (k1 x) k2 tr2 tr3 y r H2 H3).
Qed.

Lemma post_undefined {R : Type} (Q : list answered -> R -> Prop) :
  post (@undefined R) Q.
Proof.
  unfold undefined. apply post_call. intros x. destruct x.
Qed.

Lemma post_conseq {R : Type} (t : itree hwE R) (Q Q' : list answered -> R -> Prop) :
  post t Q -> (forall tr r, Q tr r -> Q' tr r) -> post t Q'.
Proof. intros H HQ tr r Hr. apply HQ, H, Hr. Qed.

Section Iter.

Context {I R : Type}.
Variable body : I -> itree hwE (I + R).
Variable Inv : list answered -> I -> Prop.
Variable Q : list answered -> R -> Prop.

Let step_post (pre : list answered) (t : itree hwE (I + R)) : Prop :=
  forall tr lr, runs t tr lr ->
    match lr with
    | inl i' => Inv (pre ++ tr) i'
    | inr r => Q (pre ++ tr) r
    end.

Let continue (lr : I + R) : itree hwE R :=
  match lr with
  | inl l => Tau (ITree.iter body l)
  | inr r => Ret r
  end.

Hypothesis Hbody : forall pre i, Inv pre i -> step_post pre (body i).

Lemma iter_runs (u : itree hwE R) (tr : list answered) (r : R) :
  runs u tr r ->
  (forall t pre, observe u = observe (ITree.bind t continue) ->
                 step_post pre t -> Q (pre ++ tr) r)
  /\ (forall i pre, observe u = observe (ITree.iter body i) ->
                    Inv pre i -> Q (pre ++ tr) r).
Proof.
  intros H.
  induction H as [u r Hr | u u' tr r Hu Hrun IH | u X e h a tr r Hv Hrun IH].
  - assert (HA : forall t pre, observe u = observe (ITree.bind t continue) ->
                               step_post pre t -> Q (pre ++ []) r).
    { intros t pre Ho Hpost. rewrite observe_bind in Ho.
      destruct (observe t) as [lr | t' | Y e' h'] eqn:Et; cbn in Ho; try congruence.
      destruct lr as [i'|r']; cbn in Ho; [congruence|].
      assert (r' = r) by congruence. subst r'.
      exact (Hpost [] (inr r) (runs_ret t (inr r) Et)). }
    split; [exact HA|]. intros i pre Ho Hinv.
    apply (HA (body i) pre Ho). now apply Hbody.
  - destruct IH as [IHA IHB].
    assert (HA : forall t pre, observe u = observe (ITree.bind t continue) ->
                               step_post pre t -> Q (pre ++ tr) r).
    { intros t pre Ho Hpost. rewrite observe_bind in Ho.
      destruct (observe t) as [lr | t' | Y e' h'] eqn:Et; cbn in Ho; try congruence.
      - destruct lr as [i'|r']; cbn in Ho; [|congruence].
        assert (Hu' : u' = ITree.iter body i') by congruence. subst u'.
        pose proof (Hpost [] (inl i') (runs_ret t (inl i') Et)) as Hinv. cbn in Hinv.
        rewrite app_nil_r in Hinv. exact (IHB i' pre eq_refl Hinv).
      - assert (Hu' : u' = ITree.bind t' continue) by congruence. subst u'.
        apply (IHA t' pre eq_refl). intros tr1 lr H1.
        apply Hpost. eapply runs_tau; [exact Et | exact H1]. }
    split; [exact HA|]. intros i pre Ho Hinv.
    apply (HA (body i) pre Ho). now apply Hbody.
  - destruct IH as [IHA IHB].
    assert (HA : forall t pre, observe u = observe (ITree.bind t continue) ->
                               step_post pre t -> Q (pre ++ Ans e a :: tr) r).
    { intros t pre Ho Hpost. rewrite observe_bind in Ho.
      destruct (observe t) as [lr | t' | Y e' h'] eqn:Et; cbn in Ho.
      - destruct lr as [i'|r']; cbn in Ho; congruence.
      - congruence.
      - rewrite Hv in Ho. inversion Ho as [[HX He Hk]]. subst Y.
        apply inj_pair2 in He, Hk. subst e'.
        assert (Hh : h a = ITree.bind (h' a) continue) by (rewrite Hk; reflexivity).
        replace (pre ++ Ans e a :: tr) with ((pre ++ [Ans e a]) ++ tr)
          by (rewrite <- app_assoc; reflexivity).
        apply (IHA (h' a) (pre ++ [Ans e a])); [rewrite Hh; reflexivity|].
        intros tr1 lr H1. rewrite <- app_assoc. cbn [app].
        apply Hpost. eapply runs_vis; [exact Et | exact H1]. }
    split; [exact HA|]. intros i pre Ho Hinv.
    apply (HA (body i) pre Ho). now apply Hbody.
Qed.

(** The loop rule: an invariant of the body that holds at the start holds
    whenever the loop returns. *)
Lemma post_iter (pre : list answered) (i : I) :
  Inv pre i -> post (ITree.iter body i) (fun tr r => Q (pre ++ tr) r).
Proof.
  intros Hinv tr r H. exact (proj2 (iter_runs _ tr r H) i pre eq_refl Hinv).
Qed.

End Iter.

End PostRules.

(* ===================================================================== *)
(** ** Further properties of [RS485.cpp] *)
(* ===================================================================== *)

(** The head of a program, without reducing what follows it. *)
Ltac observe_head :=
  match goal with
  | |- observe ?t = _ =>
      let o := eval hnf in (observe t) in
      change (observe t) with o; reflexivity
  end.

(** The next call of a run, taken off a hypothesis [H : runs t tr r]. *)
Ltac next_call H :=
  let x := fresh "x" in
  let tr := fresh "tr" in
  eapply runs_vis_inv in H; [|observe_head];
  destruct H as (x & tr & -> & H);
  match type of x with
  | unit => destruct x
  | _ => idtac
  end.

(** A run given call by call, silent steps included. *)
Ltac run_through :=
  repeat first [ eapply runs_vis; [observe_head|]
               | eapply runs_tau; [observe_head|] ];
  eapply runs_ret; observe_head.

Ltac last_call H :=
  eapply runs_ret_inv in H; [|observe_head];
  destruct H as [-> ->].

Lemma write_runs (this : RS485.t) (d : list byte) (length : Z)
    (tr : list answered) (r : Z) :
  RS485.initialized_ this = true ->
  runs (RS485.write this (Some d) length) tr r
  <-> tr = write_trace this (Ans (UartWrite (RS485.serial_ this) d length) r).
Proof.
  intros Hinit. unfold RS485.write, write_trace.
  rewrite Hinit. cbn [negb]. split.
  - intros H. do 6 next_call H. last_call H. reflexivity.
  - intros ->. run_through.
Qed.

Lemma write_byte_runs (this : RS485.t) (b : byte) (tr : list answered) (r : Z) :
  RS485.initialized_ this = true ->
  runs (RS485.write_byte this b) tr r
  <-> tr = write_trace this (Ans (UartWriteByte (RS485.serial_ this) b) r).
Proof.
  intros Hinit. unfold RS485.write_byte, write_trace.
  rewrite Hinit. cbn [negb]. split.
  - intros H. do 6 next_call H. last_call H. reflexivity.
  - intros ->. run_through.
Qed.

(** X8. Half-duplex turnaround: on an initialised transport every call of
    [write(data, length)] with a non-null pointer, and every call of
    [write(byte)], enables the driver, waits the guard delay, hands the
    bytes to the UART, flushes, waits and disables the driver again, in this
    order and nothing else, and returns what the UART reported as written. *)
Theorem write_turnaround
    (this : RS485.t) (d : list byte) (length : Z) (b : byte)
    (tr : list answered) (r : Z) :
  RS485.initialized_ this = true ->
  (runs (RS485.write this (Some d) length) tr r
   <-> tr = write_trace this (Ans (UartWrite (RS485.serial_ this) d length) r))
  /\ (runs (RS485.write_byte this b) tr r
      <-> tr = write_trace this (Ans (UartWriteByte (RS485.serial_ this) b) r)).
Proof.
  intros Hinit. split; [now apply write_runs | now apply write_byte_runs].
Qed.

Lemma write_turnaround_witness :
  (runs (RS485.write (Application.rs485_ app_ready) (Some status_query_frame) 11)
     (write_trace (Application.rs485_ app_ready)
        (Ans (UartWrite Serial2 status_query_frame 11) 11)) 11
   <-> write_trace (Application.rs485_ app_ready)
         (Ans (UartWrite Serial2 status_query_frame 11) 11)
       = write_trace (Application.rs485_ app_ready)
           (Ans (UartWrite (RS485.serial_ (Application.rs485_ app_ready))
                   status_query_frame 11) 11))
  /\ (runs (RS485.write_byte (Application.rs485_ app_ready) xff)
        (write_trace (Application.rs485_ app_ready)
           (Ans (UartWrite Serial2 status_query_frame 11) 11)) 11
      <-> write_trace (Application.rs485_ app_ready)
            (Ans (UartWrite Serial2 status_query_frame 11) 11)
          = write_trace (Application.rs485_ app_ready)
              (Ans (UartWriteByte (RS485.serial_ (Application.rs485_ app_ready)) xff) 11)).
Proof.
  apply (write_turnaround (Application.rs485_ app_ready) status_query_frame 11 xff
           (write_trace (Application.rs485_ app_ready)
              (Ans (UartWrite Serial2 status_query_frame 11) 11)) 11).
  reflexivity.
Defined.

(** X9. [begin] cannot fail: every call configures the driver pin as an
    output, puts the transceiver in receive mode (driver disabled) before
    the UART is started on the object's own pins, waits 100 ms, and returns
    true with the object initialised and otherwise unchanged. *)
Theorem begin_always_succeeds
    (this : RS485.t) (baudRate : Z) (tr : list answered) (res : RS485.t * bool) :
  runs (RS485.begin this baudRate) tr res
  <-> tr = [ Ans (PinMode (RS485.de_re_pin_ this) OUTPUT) tt;
             Ans (DelayMicroseconds RS485_POST_TX_DELAY_US) tt;
             Ans (DigitalWrite (RS485.de_re_pin_ this) LOW) tt;
             Ans (UartBegin (RS485.serial_ this) baudRate SERIAL_8N1
                    (RS485.rx_pin_ this) (RS485.tx_pin_ this)) tt;
             Ans (Delay 100) tt ]
      /\ res = (begun this, true).
Proof.
  unfold RS485.begin, begun. split.
  - intros H. do 5 next_call H. last_call H. split; reflexivity.
  - intros [-> ->]. run_through.
Qed.

Section ReadBytes.

Variables (this : RS485.t) (b : list byte) (length : Z).
Hypothesis Hlength : 0 <= length < 2 ^ 32.

Local Abbreviation port := (RS485.serial_ this).

Lemma uart_reads_app (tr1 tr2 : list answered) :
  uart_reads (tr1 ++ tr2) = uart_reads tr1 ++ uart_reads tr2.
Proof.
  induction tr1 as [|[X e x] tr1 IH]; [reflexivity|].
  destruct e; cbn; rewrite IH; reflexivity.
Qed.

Lemma firstn_snoc (l1 rest : list byte) (x : byte) :
  firstn (S (List.length l1)) (l1 ++ x :: rest) = l1 ++ [x].
Proof.
  replace (l1 ++ x :: rest) with ((l1 ++ [x]) ++ rest) by (now rewrite <- app_assoc).
  replace (S (List.length l1)) with (List.length (l1 ++ [x]))
    by (rewrite length_app; simpl; lia).
  rewrite firstn_app, Nat.sub_diag, firstn_all. simpl. apply app_nil_r.
Qed.

Lemma skipn_snoc (l1 rest : list byte) (x : byte) :
  skipn (S (List.length l1)) (l1 ++ x :: rest) = rest.
Proof.
  replace (l1 ++ x :: rest) with ((l1 ++ [x]) ++ rest) by (now rewrite <- app_assoc).
  replace (S (List.length l1)) with (List.length (l1 ++ [x]))
    by (rewrite length_app; simpl; lia).
  now rewrite skipn_app, Nat.sub_diag, skipn_all.
Qed.

(** Calls that read nothing keep what has been received. *)
Lemma received_idle (pre tr : list answered) (buf : list byte) (n : Z) :
  received port b length pre buf n ->
  uart_reads tr = [] -> Forall (rx_call port) tr ->
  received port b length (pre ++ tr) buf n.
Proof.
  intros (Hn & Hb & Hl & Hf & Hs & Ha) Hnone Hrx.
  repeat split; try assumption || lia.
  - now rewrite uart_reads_app, Hnone, app_nil_r.
  - apply Forall_app. now split.
Qed.

(** One more byte stored at index [n]. *)
Lemma received_store (pre tr : list answered) (buf buf' : list byte) (n c : Z) :
  received port b length pre buf n ->
  n < length ->
  store buf n (to_u8 c) = Some buf' ->
  uart_reads tr = [c] -> Forall (rx_call port) tr ->
  received port b length (pre ++ tr) buf' (to_size_t (n + 1)).
Proof.
  intros (Hn & Hb & Hl & Hf & Hs & Ha) Hlt Hst Hone Hrx.
  destruct (store_some _ _ _ _ Hst) as [Hi Hl'].
  rewrite to_size_t_small by lia.
  assert (Hbuf' : buf' = firstn (Z.to_nat n) buf ++ to_u8 c :: skipn (S (Z.to_nat n)) buf).
  { unfold store in Hst.
    destruct ((0 <=? n) && (n <? Z.of_nat (List.length buf))); congruence. }
  assert (Hfl : List.length (firstn (Z.to_nat n) buf) = Z.to_nat n)
    by (apply firstn_length_le; lia).
  unfold received.
  replace (Z.to_nat (n + 1)) with (S (Z.to_nat n)) by lia.
  assert (Hsk : skipn (S (Z.to_nat n)) buf = skipn (S (Z.to_nat n)) b).
  { replace (S (Z.to_nat n)) with (1 + Z.to_nat n)%nat by lia.
    rewrite <- !skipn_skipn. now rewrite Hs. }
  set (l1 := firstn (Z.to_nat n) buf) in *.
  set (rest := skipn (S (Z.to_nat n)) buf) in *.
  rewrite <- Hfl. subst buf'.
  repeat split; try lia.
  - rewrite uart_reads_app, Hone, List.map_app, <- Hf. cbn [List.map].
    apply firstn_snoc.
  - rewrite skipn_snoc. rewrite Hfl. exact Hsk.
  - apply Forall_app. now split.
Qed.

(** One evaluation of the loop keeps [received]. *)
Lemma read_step_keeps (pre : list answered) (buf : list byte) (n start : Z) :
  received port b length pre buf n ->
  post (RS485.read_step this length (buf, n, start))
    (fun tr lr =>
       match lr with
       | inl (buf', n', _) => received port b length (pre ++ tr) buf' n'
       | inr (ob, m) => exists b', ob = Some b' /\ received port b length (pre ++ tr) b' m
       end).
Proof.
  intros Hrec. unfold RS485.read_step.
  destruct (Z.ltb_spec n length) as [Hlt|Hge].
  - apply post_call. intros now.
    destruct (to_ulong (now - start) <? RS485_RX_TIMEOUT_MS).
    + apply post_call. intros a. destruct (a =? 0).
      * apply post_ret_bind. apply post_call. intros []. apply post_ret.
        apply received_idle; [exact Hrec | reflexivity |].
        repeat constructor.
      * apply post_assoc. apply post_call. intros c.
        destruct (store buf n (to_u8 c)) as [buf'|] eqn:Hst.
        -- apply post_assoc. apply post_call. intros now'.
           apply post_ret_bind. apply post_call. intros []. apply post_ret.
           apply (received_store pre _ buf buf' n c Hrec Hlt Hst); [reflexivity|].
           repeat constructor.
        -- unfold undefined. apply post_assoc. apply post_call. intros x. destruct x.
    + apply post_ret. exists buf. split; [reflexivity|].
      apply received_idle; [exact Hrec | reflexivity |]. repeat constructor.
  - apply post_ret. exists buf. split; [reflexivity|].
    apply received_idle; [exact Hrec | reflexivity | constructor].
Qed.

End ReadBytes.

(** X10. On an initialised transport, whenever [readBytes] returns it
    reports at most [length] bytes, has stored exactly the bytes the UART
    handed out, in order, at the start of the buffer, has left the rest of
    the buffer and its size alone, and has called nothing but the clock, the
    UART's [available] and [read], and the 100 microsecond pause: it never
    drives the transmit-enable pin. *)
Theorem readBytes_returns_what_arrived
    (this : RS485.t) (b : list byte) (length : Z)
    (tr : list answered) (ob : option (list byte)) (n : Z) :
  RS485.initialized_ this = true ->
  0 <= length < 2 ^ 32 ->
  runs (RS485.readBytes this (Some b) length) tr (ob, n) ->
  exists b', ob = Some b' /\ received (RS485.serial_ this) b length tr b' n.
Proof.
  intros Hinit Hlength H.
  unfold RS485.readBytes in H. rewrite Hinit in H. cbn [negb] in H.
  set (Q := fun (tr : list answered) (r : option (list byte) * Z) =>
              exists b', fst r = Some b'
                         /\ received (RS485.serial_ this) b length tr b' (snd r)).
  assert (Hpost : post (ITree.bind (ITree.trigger Millis)
                          (fun startTime =>
                             ITree.iter (RS485.read_step this length) (b, 0, startTime)))
                    Q).
  { apply post_call. intros start.
    refine (post_iter (RS485.read_step this length)
              (fun pre (st : RS485.read_state) =>
                 received (RS485.serial_ this) b length pre (fst (fst st)) (snd (fst st)))
              Q _ [Ans Millis start] (b, 0, start) _).
    - intros pre [[buf n'] st] Hinv tr' lr Hr.
      pose proof (read_step_keeps this b length Hlength pre buf n' st Hinv tr' lr Hr) as Hk.
      destruct lr as [[[buf1 n1] st1]|[ob1 m1]]; exact Hk.
    - cbn [fst snd]. unfold received. repeat split; try lia.
      repeat constructor. }
  exact (Hpost tr (ob, n) H).
Qed.


Lemma readBytes_returns_what_arrived_witness :
  exists b',
    Some [xa5; x07; x00] = Some b'
    /\ received (RS485.serial_ (Application.rs485_ app_ready)) [x00; x00; x00] 2
         rx_demo_trace b' 2.
Proof.
  apply (readBytes_returns_what_arrived (Application.rs485_ app_ready)
           [x00; x00; x00] 2 rx_demo_trace (Some [xa5; x07; x00]) 2).
  - reflexivity.
  - lia.
  - unfold rx_demo_trace. run_through.
Defined.

(* ===================================================================== *)
(** ** Further properties of [Statistics.cpp], [Application.cpp], [main.cpp] *)
(* ===================================================================== *)

(** X11. The uptime survives the rollover of the 32-bit millisecond clock:
    when the clock reads the start time plus [elapsed] milliseconds modulo
    2^32, with [elapsed] below 2^32, [getUptimeSeconds] returns
    [elapsed / 1000]. *)
Theorem uptime_across_rollover (this : Statistics.t) (elapsed r : Z) :
  0 <= Statistics.start_time_ this < 2 ^ 32 ->
  0 <= elapsed < 2 ^ 32 ->
  runs (Statistics.getUptimeSeconds this)
    [Ans Millis (to_ulong (Statistics.start_time_ this + elapsed))] r
  <-> r = elapsed / 1000.
Proof.
  intros Hs He.
  assert (Hdiff : to_ulong (to_ulong (Statistics.start_time_ this + elapsed)
                            - Statistics.start_time_ this) = elapsed).
  { unfold to_ulong. rewrite Zminus_mod_idemp_l.
    replace (Statistics.start_time_ this + elapsed - Statistics.start_time_ this)
      with elapsed by lia.
    apply Z.mod_small. lia. }
  unfold Statistics.getUptimeSeconds. split.
  - intros H.
    eapply runs_vis_inv in H; [|observe_head].
    destruct H as (x & tr' & Htr & H).
    eapply runs_ret_inv in H; [|observe_head]. destruct H as [_ ->].
    assert (Hx : x = to_ulong (Statistics.start_time_ this + elapsed)).
    { inversion Htr as [Hx]. apply inj_pair2 in Hx. congruence. }
    rewrite Hx, Hdiff. reflexivity.
  - intros ->. eapply runs_vis; [observe_head|]. eapply runs_ret. cbn. now rewrite Hdiff.
Qed.

Lemma uptime_across_rollover_witness :
  runs (Statistics.getUptimeSeconds
          {| Statistics.packets_received_ := 0; Statistics.packets_transmitted_ := 0;
             Statistics.errors_ := 0; Statistics.start_time_ := 4294966796 |})
    [Ans Millis (to_ulong (4294966796 + 2500))] 2
  <-> 2 = 2500 / 1000.
Proof.
  apply (uptime_across_rollover
           {| Statistics.packets_received_ := 0; Statistics.packets_transmitted_ := 0;
              Statistics.errors_ := 0; Statistics.start_time_ := 4294966796 |} 2500 2);
    simpl; lia.
Defined.

(** X12. A transmission of more than [RS485_BUFFER_SIZE] = 256 bytes is
    refused: [sendRS485Data] prints an error on the console and counts one
    error, and makes no call to the transport, the pins or the RS-485 UART. *)
Theorem send_oversize_refused
    (this : Application.t) (d : list byte) (length : Z)
    (tr : list answered) (this' : Application.t) :
  RS485_BUFFER_SIZE < length ->
  runs (Application.sendRS485Data this (Some d) length) tr this'
  <-> tr = [Ans (Println Serial "ERROR: Data too large to transmit"%string) tt]
      /\ this' = error_counted this.
Proof.
  intros Hbig. unfold RS485_BUFFER_SIZE in Hbig.
  unfold Application.sendRS485Data, error_counted.
  destruct (Z.eqb_spec length 0) as [E|_]; [lia|].
  destruct (Z.ltb_spec RS485_BUFFER_SIZE length) as [_|E];
    [|unfold RS485_BUFFER_SIZE in E; lia].
  split.
  - intros H. next_call H. last_call H. split; reflexivity.
  - intros [-> ->]. run_through.
Qed.

Lemma send_oversize_refused_witness :
  runs (Application.sendRS485Data app_ready (Some (repeat x00 300)) 300)
    [Ans (Println Serial "ERROR: Data too large to transmit"%string) tt]
    (error_counted app_ready)
  <-> [Ans (Println Serial "ERROR: Data too large to transmit"%string) tt]
      = [Ans (Println Serial "ERROR: Data too large to transmit"%string) tt]
      /\ error_counted app_ready = error_counted app_ready.
Proof.
  apply (send_oversize_refused app_ready (repeat x00 300) 300).
  unfold RS485_BUFFER_SIZE. lia.
Defined.

(** X13. While the transport is not initialised a transmission fails:
    [sendRS485Data] counts one error and reports it on the console, and
    nothing reaches the bus. *)
Theorem send_before_begin_fails
    (this : Application.t) (d : list byte) (length : Z)
    (tr : list answered) (this' : Application.t) :
  RS485.initialized_ (Application.rs485_ this) = false ->
  length <> 0 ->
  length <= RS485_BUFFER_SIZE ->
  runs (Application.sendRS485Data this (Some d) length) tr this'
  <-> tr = [Ans (Println Serial "ERROR: Failed to transmit RS-485 data"%string) tt]
      /\ this' = error_counted this.
Proof.
  intros Hinit Hnz Hfit.
  unfold Application.sendRS485Data, RS485.write, error_counted.
  rewrite Hinit. cbn [negb].
  destruct (Z.eqb_spec length 0) as [E|_]; [contradiction|].
  destruct (Z.ltb_spec RS485_BUFFER_SIZE length) as [E|_]; [lia|].
  destruct length as [|p|p]; [congruence | |].
  - split.
    + intros H. next_call H. last_call H. split; reflexivity.
    + intros [-> ->]. run_through.
  - split.
    + intros H. next_call H. last_call H. split; reflexivity.
    + intros [-> ->]. run_through.
Qed.

Lemma send_before_begin_fails_witness :
  let app :=
    {| Application.rs485_ :=
         RS485.new RS485_SERIAL RS485_DE_RE_PIN RS485_TX_PIN RS485_RX_PIN;
       Application.statistics_ := Application.statistics_ app_ready;
       Application.rx_buffer_ := repeat x00 256;
       Application.last_activity_ := 0;
       Application.last_stats_print_ := 0 |} in
  runs (Application.sendRS485Data app (Some status_query_frame) 11)
    [Ans (Println Serial "ERROR: Failed to transmit RS-485 data"%string) tt]
    (error_counted app)
  <-> [Ans (Println Serial "ERROR: Failed to transmit RS-485 data"%string) tt]
      = [Ans (Println Serial "ERROR: Failed to transmit RS-485 data"%string) tt]
      /\ error_counted app = error_counted app.
Proof.
  intros app.
  apply (send_before_begin_fails app status_query_frame 11).
  - reflexivity.
  - discriminate.
  - unfold RS485_BUFFER_SIZE. lia.
Defined.

Lemma print_bytes_console (d : list byte) (n : nat) :
  forall i : Z,
    post (Application.print_bytes d n i) (fun tr _ => Forall console_call tr).
Proof.
  induction n as [|n IH]; intros i; cbn [Application.print_bytes].
  - apply post_ret. constructor.
  - destruct (load d i) as [b|]; [|apply post_undefined].
    apply post_call. intros [].
    apply (post_conseq _ _ _ (IH (i + 1))).
    intros tr _ Htr. constructor; [exact I | exact Htr].
Qed.

Lemma printHexData_console (prefix : String.string) (data : option (list byte))
    (length : Z) :
  post (Application.printHexData prefix data length)
    (fun tr _ => Forall console_call tr).
Proof.
  unfold Application.printHexData. destruct data as [d|]; [|apply post_ret; constructor].
  destruct (length =? 0); [apply post_ret; constructor|].
  apply post_call. intros [].
  apply (post_bind _ _ (fun tr _ => Forall console_call tr)).
  - apply print_bytes_console.
  - intros tr1 _ H1. apply post_trigger. intros [].
    constructor; [exact I|]. apply Forall_app. split; [exact H1|].
    constructor; [exact I | constructor].
Qed.

(** X14. On an initialised transport every call of [sendRS485Data] with a
    non-null pointer and a length from 1 to 256 makes exactly one
    transmission, with the driver enabled around it and disabled after it,
    and apart from that only writes to the console; the packet is counted
    as transmitted when the UART reports all [length] bytes written, and as
    an error otherwise. No other member of the application changes. *)
Theorem send_counts_once
    (this : Application.t) (d : list byte) (length : Z)
    (tr : list answered) (this' : Application.t) :
  RS485.initialized_ (Application.rs485_ this) = true ->
  length <> 0 ->
  length <= RS485_BUFFER_SIZE ->
  runs (Application.sendRS485Data this (Some d) length) tr this' ->
  exists (n : Z) (console : list answered),
    tr = write_trace (Application.rs485_ this)
           (Ans (UartWrite (RS485.serial_ (Application.rs485_ this)) d length) n)
         ++ console
    /\ Forall console_call console
    /\ this' = (if n =? length then transmission_counted this else error_counted this).
Proof.
  intros Hinit Hnz Hfit H.
  unfold Application.sendRS485Data in H.
  destruct (Z.eqb_spec length 0) as [E|_]; [contradiction|].
  destruct (Z.ltb_spec RS485_BUFFER_SIZE length) as [E|_]; [lia|].
  revert H. generalize tr this'. change (post ?t ?Q) with (post t Q).
  apply (post_bind _ _
           (fun tr1 n => tr1 = write_trace (Application.rs485_ this)
                               (Ans (UartWrite (RS485.serial_ (Application.rs485_ this))
                                       d length) n))).
  - intros tr1 n H1. now apply write_runs in H1.
  - intros tr1 n ->. destruct (n =? length) eqn:En.
    + apply (post_bind _ _ (fun tr2 _ => Forall console_call tr2)).
      * apply printHexData_console.
      * intros tr2 _ H2. apply post_ret.
        exists n, tr2. rewrite En, app_nil_r. repeat split; [exact H2].
    + apply post_call. intros []. apply post_ret.
      exists n, [Ans (Println Serial "ERROR: Failed to transmit RS-485 data"%string) tt].
      rewrite En. repeat split. constructor; [exact I | constructor].
Qed.

Lemma send_counts_once_witness :
  exists (n : Z) (console : list answered),
    echo_trace
    = write_trace (Application.rs485_ app_ready)
        (Ans (UartWrite (RS485.serial_ (Application.rs485_ app_ready)) foreign_frame 11) n)
      ++ console
    /\ Forall console_call console
    /\ transmission_counted app_ready
       = (if n =? 11 then transmission_counted app_ready else error_counted app_ready).
Proof.
  apply (send_counts_once app_ready foreign_frame 11 echo_trace
           (transmission_counted app_ready)).
  - reflexivity.
  - discriminate.
  - unfold RS485_BUFFER_SIZE. lia.
  - unfold echo_trace. run_through.
Defined.

Lemma initialize_runs (this : Application.t) (tr : list answered)
    (res : Application.t * bool) :
  runs (Application.initialize this) tr res
  <-> exists now, tr = init_trace this now /\ res = (initialized_at this now, true).
Proof.
  unfold Application.initialize, init_trace, initialized_at, begun. split.
  - intros H. do 18 next_call H. next_call H. last_call H.
    eexists. split; reflexivity.
  - intros (now & -> & ->). run_through.
Qed.

(** X15. [initialize] cannot report failure: whenever it returns, it returns
    true, the transport is initialised, the statistics are untouched, the
    board has seen the console banner, the start of the RS-485 UART in
    receive mode and the status messages, and [last_activity_] holds the
    clock value read at the end. *)
Theorem initialize_never_fails
    (this : Application.t) (tr : list answered) (res : Application.t * bool) :
  runs (Application.initialize this) tr res ->
  snd res = true
  /\ RS485.isInitialized (Application.rs485_ (fst res)) = true
  /\ Application.statistics_ (fst res) = Application.statistics_ this
  /\ tr = init_trace this (Application.last_activity_ (fst res)).
Proof.
  intros H. apply initialize_runs in H. destruct H as (now & -> & ->).
  repeat split.
Qed.

Lemma initialize_never_fails_witness :
  snd (initialized_at app_ready 1100, true) = true
  /\ RS485.isInitialized (Application.rs485_ (fst (initialized_at app_ready 1100, true)))
     = true
  /\ Application.statistics_ (fst (initialized_at app_ready 1100, true))
     = Application.statistics_ app_ready
  /\ init_trace app_ready 1100
     = init_trace app_ready
         (Application.last_activity_ (fst (initialized_at app_ready 1100, true))).
Proof.
  apply (initialize_never_fails app_ready (init_trace app_ready 1100)
           (initialized_at app_ready 1100, true)).
  unfold init_trace. run_through.
Defined.

(** X16. [setup] never halts in its failure loop: it returns exactly when
    [initialize] does, after the same calls, with the application
    initialised. *)
Theorem setup_returns (app : Application.t) (tr : list answered) (app' : Application.t) :
  runs (Main.setup app) tr app'
  <-> exists now, tr = init_trace app now /\ app' = initialized_at app now.
Proof.
  unfold Main.setup. split.
  - intros H.
    destruct (runs_bind_inv _ _ tr app' H (Application.initialize app) eq_refl)
      as (tr1 & tr2 & res & H1 & H2 & ->).
    apply initialize_runs in H1. destruct H1 as (now & -> & ->).
    cbn [snd fst negb] in H2.
    destruct (runs_ret_inv (Ret (initialized_at app now)) (initialized_at app now)
                app' tr2 eq_refl H2) as [-> ->].
    exists now. rewrite app_nil_r. split; reflexivity.
  - intros (now & -> & ->).
    rewrite <- (app_nil_r (init_trace app now)).
    apply (runs_bind (Application.initialize app) _ (init_trace app now) []
             (initialized_at app now, true)).
    + apply initialize_runs. exists now. split; reflexivity.
    + apply runs_ret. reflexivity.
Qed.

(** X18. With the feature macros of [config.h] ([ECHO_MODE] and
    [ENABLE_WIFI] are defined, and tested with [#ifdef]),
    [processReceivedPacket] does exactly what [sendRS485Data] does with the
    same arguments: every received buffer that is not empty is transmitted
    again on the bus. *)
Theorem received_packet_is_echoed
    (this : Application.t) (data : option (list byte)) (length : Z)
    (tr : list answered) (this' : Application.t) :
  runs (Application.processReceivedPacket this data length) tr this'
  <-> runs (Application.sendRS485Data this data length) tr this'.
Proof.
  unfold Application.processReceivedPacket.
  destruct data as [d|]; [|reflexivity].
  destruct (length =? 0) eqn:E.
  - unfold Application.sendRS485Data. rewrite E. reflexivity.
  - change (if ifdef ECHO_MODE
            then Application.sendRS485Data this (Some d) length else Ret this)
      with (Application.sendRS485Data this (Some d) length).
    split.
    + intros H.
      destruct (runs_bind_inv _ _ tr this' H
                  (Application.sendRS485Data this (Some d) length) eq_refl)
        as (tr1 & tr2 & x & H1 & H2 & ->).
      destruct (runs_ret_inv (Ret x) x this' tr2 eq_refl H2) as [-> ->].
      now rewrite app_nil_r.
    + intros H. rewrite <- (app_nil_r tr).
      apply (runs_bind _ _ tr [] this' this' H).
      apply runs_ret. reflexivity.
Qed.
